(* ===== verification/_CoqProject ===== *)
-Q . S2P
Prelude.v
Board.v
Interface.v
Text.v
Dom.v
Heuristic.v
Search.v
SearchSpec.v
Strategy.v
Symmetry.v
Forced.v
Game.v
Page.v
Controller.v
