(* ===== verification/Prelude.v ===== *)
(** * A verified model of Connect-Four: board engine, minimax search and page

    This library models the C++ sources of the Connect-Four game under
    [src/] and proves the properties that make its board engine, its
    computer opponent and its web page correct.

    ** The program
    - [src/board.h], class [Board]: a 6 x 7 grid of [int] pieces
      ([PIECE_EMPTY], [PIECE_A], [PIECE_B]) with [getPiece], [setPiece],
      [addMove] (gravity placement, scanning from the bottom row up),
      [checkWin] (scans every length-4 window: vertical, horizontal, the
      two diagonals, then the top row for a draw), [isColumnOpen],
      [reset], [winStateToPiece] and [pieceToWinState].
    - [src/ai.h], class [AI]: holds a [Board*] and two piece ids and
      chooses a column by exhaustive minimax.  [computeMove] drops the
      computer's piece in every open column, calls
      [minimax(startingDepth, false)] and keeps the first column with the
      largest value; [minimax] recurses, dropping a piece with [addMove]
      and undoing it with [setPiece(row, col, PIECE_EMPTY)], on the one
      shared board; [getBoardHeuristicValue] scores leaves.
    - [src/main.cpp]: the browser page (globals [board], [ai], [turn],
      [playing] and the DOM elements [images], [buttons], [mainLabel],
      [resetButton]).  [loadCallback] builds the grid of images and wires
      the buttons, named [std::to_string(i)]; a click runs
      [moveButtonCallback], which recovers the column with [atoi] and runs
      [handleMove]: the human's drop, the verdict, the AI's move and its
      drop, each followed by [updateBoard], a label and [logOnline] lines.

    ** The development (files in dependency order)
    - [Prelude] (this file): the state-and-failure monad [st] the search
      is written in, with its notation [let! x := m in k] in [c4_scope];
      the loop combinators [first_some] (a [for] loop with an early
      [return]) and [option_orelse]; the C++ [int] limits [INT_MIN],
      [INT_MAX]; the lemmas on these and on [fold_left Z.max/Z.min] the
      components share; [for_each], a [for] loop whose body may fail;
      the hint database [c4].
    - [Board] (Module [Board]): [board.h].  The grid is a
      [list (list piece)] read with stdpp's [!!] and written with
      [alter]/[<[_:=_]>]; every method is one definition of the same
      name.  [addMove] returns [option]: the C++ loop falls off the end
      of a non-void function on a full column (undefined behaviour),
      which is [None] here.
    - [Interface]: the class [BoardAPI] of the board operations the AI
      calls and the class [BoardLaws] of the three facts the search relies
      on (a drop in an open column succeeds; undoing a drop restores the
      board; an unfinished board has an open column); the instance for
      [Board.board] discharges them.
    - [Text]: the library conversions [std::to_string] (stdpp's decimal
      [pretty]) and [atoi] (after the C standard), and their round trip.
    - [Dom] (Module [Dom]): the image grid [images[ROWS][COLUMNS]], each
      element as its [class] attribute and a null pointer as [None];
      grids that tabulate a function, [ogrid], on which the write loops
      are pointwise updates.
    - [Heuristic] (Section over [BoardAPI]): [AI::getBoardHeuristicValue];
      its three loop nests scan the 69 windows in [checkWin]'s order
      ([static_score_scan]).
    - [Search] (Section over [BoardAPI]): [AI::minimax] and
      [AI::computeMove] as state-passing programs in [st] on the shared
      board, every [addMove] and undoing [setPiece] written out;
      [computeMove_log] threads the lines [computeMove] prints with
      [console.log], and [computeMove] is its move.
    - [SearchSpec]: a pure reference minimax [value] that copies the
      board instead of undoing moves, and the refinement theorem that the
      stateful search returns the reference value and leaves the board as
      it found it; the game-level properties are proved on [value].
    - [Strategy]: what [computeMove] chooses, proved on the reference
      [best_move]: an open column of maximal value, the first of them, an
      immediate win when there is one, [0] when no column is open.
    - [Symmetry]: [swap ai], the AI with the roles of its pieces
      exchanged; the heuristic and the reference value are antisymmetric
      under it.
    - [Forced] (Section over [BoardLaws]): the game-theoretic meaning of
      the values: the inductive [forced_win j m b] (the computer can force
      a win within [j] plies) and the theorem that [value] reaches
      [994 + d - j] exactly when it holds; by symmetry, it falls to
      [-(994 + d - j)] exactly when the player can force a win.
    - [Game] (Module [Game]): [main.cpp].  The globals [board], [turn],
      [playing] are the record [game]; [handleMove], [changeTurn],
      [moveButtonCallback] and [resetButtonCallback] are functions on it
      (the AI's reply is the [computeMove] of [Search] on the same board);
      the page's events, a click on one of the [COLUMNS] column buttons or
      on the reset button, label the step relation [step], and
      [reachable] is its closure from the constructor's [reset] of an
      arbitrary array.  [play] runs a whole game against a strategy for
      the human.
    - [Page] (Module [Page]): all of [main.cpp] with its DOM effects: the
      record [page] extends [Game.game] with the images, the buttons, the
      label, the reset button, the [logOnline] log and the console;
      every function of the file is
      a definition of the same name; writing through a null element
      fails with [None]; the step relation [step] has the events the page
      registers and [reachable] starts at [webMain]'s [loadCallback].
    - [Controller] (Module [Controller]): the design's phase machine
      ([AwaitingMove], [ComputingEngineMove], [GameOver]; events
      move-submitted, engine-move-computed, terminal-detected and reset)
      as the labelled step relation [cstep] on a phase and a board, with
      [run] along a trace, and [abs] mapping a [Game.game] to the phase it
      shows between two events.

    ** Theorems, by group
    - Board: [reset] is all-empty;
      [winStateToPiece] and [pieceToWinState] inverse but on a draw;
      gravity ([addMove] lands at row [ROWS-1-k] over [k] pieces and keeps
      the column contiguous; a full column is the undefined-behaviour
      path); [checkWin] is sound and complete for four-in-a-row and its
      scan order decides simultaneous wins.
    - Search: undo discipline and refinement of the reference minimax;
      values bounded by 1000 in absolute value (never the [INT_MIN] /
      [INT_MAX] sentinels); forced-outcome dominance of win values over
      the static score; a window scores [+3]/[-3] exactly for three
      pieces and one empty cell at an end of the window (the spec also
      scores the empty cell in the middle); [computeMove] returns an open column, the first
      one of maximal value, the first immediately winning column; the
      values decide forced wins within the horizon, faster wins scoring
      higher, so [computeMove] finds a fastest forced win whenever there
      is one within [startingDepth] plies after its own drop, and avoids
      every forced loss it can avoid (exchanging the two players negates
      every value); the console shows one [Col c Value v] line per open
      column with its minimax value; the running total of the static
      score never leaves the 32-bit range.
    - Controller: the invariant of every reachable state (well-formed
      gravity board; while playing, red's turn on an unfinished board with
      equal piece counts), proved by rule induction on [reachable]; a
      click on an open column plays both drops without undefined
      behaviour; a click on a full column reaches it ([handleMove] never
      checks [isColumnOpen]); every game stops within 21 clicks, since the
      count of red pieces grows by one per click and stays at most 20
      while an empty top cell remains; a human who always clicks an open
      column ends the game ([play], with fuel 21); every event refines
      the phase machine: a click in play is a run of move-submitted, then
      terminal-detected or engine-move-computed (and terminal-detected if
      the engine's move ends the game), a click after the end runs
      nothing, a reset returns to [AwaitingMove] on the empty board.
    - Page: refinement of [Game] (every reachable page projects to a
      reachable game, by a simulation of each event); the images always
      show the board and a stopped game's label its outcome; the label
      after every event; the buttons' ids round-trip through
      [std::to_string]/[atoi]; no
      event reaches undefined behaviour but a click on a full column; the
      log line of the AI's move carries the human's column; only the
      search writes the console, with the lines of the board after the
      human's drop.

    ** Bounds and depth
    The search depth is the C++ [startingDepth = 6], passed unchanged to
    [minimax] by [computeMove] (so 7 plies are searched, not the 6 of the
    spec).  Depth is a [nat]: the C++ [int depth] starts at 6 and
    [minimax] only recurses when it is not 0, so it never goes negative
    and the recursion is structural.  Scores are [Z]; the theorems bound
    them by 1000 in absolute value, and the running total [points] of the
    static score, after any number of its windows, by 207
    ([heuristic_points_in_int_range]), far inside the 32-bit [int] range,
    so no C++ overflow can occur and [Z] computes what [int] does.  [play] takes fuel, a bound on the clicks:
    21 is enough from the empty board, since each click during play adds a
    red piece and at most 20 fit while the game goes on.

    ** Not modelled
    The browser itself:
    the HTML page (not in the repository) is assumed to hold the elements
    [main-table], [main-label], [reset-button] and the buttons [0] to [6];
    the label's initial text is a parameter of [loadCallback]; the [<tr>]
    and [<td>] elements [createTable] appends are not kept, only the
    images it stores.  Out-of-range [getPiece]/[setPiece] (undefined
    behaviour in C++; every call of the program is in range, the columns
    coming from the buttons [0] to [6]) read [PIECE_EMPTY] and write
    nothing here. *)

From stdpp Require Export base list sets sorting.
From Stdlib Require Export ZArith Lia.

Declare Scope c4_scope.
Delimit Scope c4_scope with c4.
Open Scope c4_scope.

Create HintDb c4 discriminated.
Create Rewrite HintDb c4_rw.

(** ** The C++ [int] limits ([std::numeric_limits<int>]) *)
Definition INT_MIN : Z := (-2147483648)%Z.
Definition INT_MAX : Z := 2147483647%Z.

(** ** A state monad with failure

    [st S A] threads a state [S] and fails with [None] when the modelled
    code reaches undefined behaviour. *)
Definition st (S A : Type) : Type := S -> option (A * S).

Definition st_ret {S A} (a : A) : st S A := fun s => Some (a, s).

Definition st_bind {S A B} (m : st S A) (k : A -> st S B) : st S B :=
  fun s => match m s with
           | Some (a, s') => k a s'
           | None => None
           end.

(** Run a pure query on the state. *)
Definition st_read {S A} (f : S -> A) : st S A := fun s => Some (f s, s).

(** Replace the state by a pure update of it. *)
Definition st_modify {S} (f : S -> S) : st S unit := fun s => Some (tt, f s).

(** Lift an operation that may fail and that returns a result with the new
    state. *)
Definition st_lift {S A} (f : S -> option (A * S)) : st S A := f.

Notation "'let!' x := m 'in' k" := (st_bind m (fun x => k))
  (at level 10, x name, m at level 100, k at level 200) : c4_scope.

Lemma st_bind_Some {S A B} (m : st S A) (k : A -> st S B) s a s' :
  m s = Some (a, s') -> st_bind m k s = k a s'.
Proof. intros H. unfold st_bind. by rewrite H. Qed.

Lemma st_bind_None {S A B} (m : st S A) (k : A -> st S B) s :
  m s = None -> st_bind m k s = None.
Proof. intros H. unfold st_bind. by rewrite H. Qed.

(** ** Loops with an early return

    [first_some f l] runs [f] on the elements of [l] in order and returns
    the first [Some]: a C++ [for] loop whose body may [return]. *)
Fixpoint first_some {A B} (f : A -> option B) (l : list A) : option B :=
  match l with
  | [] => None
  | x :: l' => match f x with
               | Some y => Some y
               | None => first_some f l'
               end
  end.

Definition option_orelse {A} (o1 o2 : option A) : option A :=
  match o1 with
  | Some x => Some x
  | None => o2
  end.

Lemma first_some_None {A B} (f : A -> option B) l :
  first_some f l = None <-> Forall (fun x => f x = None) l.
Proof.
  induction l as [|x l IH]; simpl; [split; auto|].
  destruct (f x) eqn:E; rewrite Forall_cons, <- IH; naive_solver.
Qed.

Lemma first_some_Some {A B} (f : A -> option B) l y :
  first_some f l = Some y ->
  exists l1 x l2, l = l1 ++ x :: l2 /\ Forall (fun x => f x = None) l1 /\ f x = Some y.
Proof.
  induction l as [|x l IH]; simpl; [discriminate|].
  destruct (f x) eqn:E.
  - intros [= <-]. by exists [], x, l.
  - intros H. destruct (IH H) as (l1 & x' & l2 & -> & Hn & Hx).
    exists (x :: l1), x', l2. simpl. auto.
Qed.

Lemma first_some_In {A B} (f : A -> option B) l y :
  first_some f l = Some y -> exists x, In x l /\ f x = Some y.
Proof.
  intros (l1 & x & l2 & -> & _ & Hx)%first_some_Some.
  exists x. split; [apply in_or_app; right; by left|done].
Qed.

Lemma first_some_None_In {A B} (f : A -> option B) l x :
  first_some f l = None -> In x l -> f x = None.
Proof.
  intros H%first_some_None Hx. rewrite Forall_forall in H.
  by apply H, list_elem_of_In.
Qed.

Lemma first_some_app {A B} (f : A -> option B) l1 l2 :
  first_some f (l1 ++ l2) = option_orelse (first_some f l1) (first_some f l2).
Proof.
  induction l1 as [|x l1 IH]; simpl; [done|]. by destruct (f x).
Qed.

Lemma first_some_ext {A B} (f g : A -> option B) l :
  (forall x, In x l -> f x = g x) -> first_some f l = first_some g l.
Proof.
  induction l as [|x l IH]; intros Hfg; simpl; [done|].
  rewrite (Hfg x) by (left; done). rewrite IH; [done|].
  intros; apply Hfg; by right.
Qed.

Lemma first_some_map {A B C} (f : B -> option C) (g : A -> B) l :
  first_some f (map g l) = first_some (fun x => f (g x)) l.
Proof. induction l as [|x l IH]; simpl; [done|]. by rewrite IH. Qed.

Lemma first_some_flat_map {A B C} (f : B -> option C) (g : A -> list B) l :
  first_some f (flat_map g l) = first_some (fun x => first_some f (g x)) l.
Proof.
  induction l as [|x l IH]; simpl; [done|].
  rewrite first_some_app, IH. by destruct (first_some f (g x)).
Qed.

(** [first_some] respects pointwise equality of its body, so [setoid_rewrite]
    can rewrite under the loop body. *)
#[export] Instance first_some_proper {A B} :
  Proper (pointwise_relation A (=) ==> (=) ==> (=)) (@first_some A B).
Proof. intros f g Hfg l ? <-. apply first_some_ext. intros; apply Hfg. Qed.

Lemma option_orelse_None {A} (o1 o2 : option A) :
  option_orelse o1 o2 = None <-> o1 = None /\ o2 = None.
Proof. destruct o1; simpl; naive_solver. Qed.

#[export] Hint Rewrite @first_some_app : c4_rw.

(** ** Folds of [std::max] / [std::min] *)

Lemma fold_max_ge (vs : list Z) (init : Z) :
  (init <= fold_left Z.max vs init)%Z /\
  Forall (fun v => v <= fold_left Z.max vs init)%Z vs.
Proof.
  revert init. induction vs as [|v vs IH]; intros init; simpl; [split; [lia|constructor]|].
  destruct (IH (Z.max init v)) as [H1 H2]. split; [lia|constructor; [lia|done]].
Qed.

Lemma fold_max_le (vs : list Z) (init bound : Z) :
  (init <= bound)%Z -> Forall (fun v => v <= bound)%Z vs ->
  (fold_left Z.max vs init <= bound)%Z.
Proof.
  revert init. induction vs as [|v vs IH]; intros init Hi Hvs; simpl; [done|].
  inversion Hvs; subst. apply IH; [lia|done].
Qed.

Lemma fold_min_le (vs : list Z) (init : Z) :
  (fold_left Z.min vs init <= init)%Z /\
  Forall (fun v => fold_left Z.min vs init <= v)%Z vs.
Proof.
  revert init. induction vs as [|v vs IH]; intros init; simpl; [split; [lia|constructor]|].
  destruct (IH (Z.min init v)) as [H1 H2]. split; [lia|constructor; [lia|done]].
Qed.

Lemma fold_min_ge (vs : list Z) (init bound : Z) :
  (bound <= init)%Z -> Forall (fun v => bound <= v)%Z vs ->
  (bound <= fold_left Z.min vs init)%Z.
Proof.
  revert init. induction vs as [|v vs IH]; intros init Hi Hvs; simpl; [done|].
  inversion Hvs; subst. apply IH; [lia|done].
Qed.

(** The value of a fold of [max] is one of the folded values or the seed. *)
Lemma fold_max_in (vs : list Z) (init : Z) :
  fold_left Z.max vs init = init \/ In (fold_left Z.max vs init) vs.
Proof.
  revert init. induction vs as [|v vs IH]; intros init; simpl; [by left|].
  destruct (IH (Z.max init v)) as [->|H]; [|by right; right].
  destruct (Z.max_spec init v) as [[_ ->]|[_ ->]]; [right; by left|by left].
Qed.

Lemma fold_min_in (vs : list Z) (init : Z) :
  fold_left Z.min vs init = init \/ In (fold_left Z.min vs init) vs.
Proof.
  revert init. induction vs as [|v vs IH]; intros init; simpl; [by left|].
  destruct (IH (Z.min init v)) as [->|H]; [|by right; right].
  destruct (Z.min_spec init v) as [[_ ->]|[_ ->]]; [by left|right; by left].
Qed.

Lemma elem_of_map_iff {A C} (f : A -> C) (l : list A) y :
  y ∈ map f l <-> exists x, y = f x /\ x ∈ l.
Proof. rewrite list_elem_of_In, in_map_iff. setoid_rewrite list_elem_of_In. naive_solver. Qed.

(** A lower bound of a [max] fold bounds the seed or one of the values; a
    lower bound of a [min] fold bounds the seed and every value. *)
Lemma fold_max_lower_iff (vs : list Z) (init t : Z) :
  (t <= fold_left Z.max vs init <-> t <= init \/ exists v, v ∈ vs /\ t <= v)%Z.
Proof.
  revert init. induction vs as [|v vs IH]; intros init; cbn [fold_left].
  - split; [by left|]. intros [?|(v & Hv & _)]; [done|by apply elem_of_nil in Hv].
  - rewrite IH. setoid_rewrite elem_of_cons. split.
    + intros [Hm|(w & Hw & Ht)]; [|eauto].
      destruct (Z.max_spec init v) as [[_ Hmax]|[_ Hmax]]; rewrite Hmax in Hm; eauto.
    + intros [Hi|(w & [->|Hw] & Ht)]; [left; lia|left; lia|eauto].
Qed.

Lemma fold_min_lower_iff (vs : list Z) (init t : Z) :
  (t <= fold_left Z.min vs init <-> t <= init /\ forall v, v ∈ vs -> t <= v)%Z.
Proof.
  revert init. induction vs as [|v vs IH]; intros init; cbn [fold_left].
  - split; [|naive_solver]. intros Ht. split; [done|]. intros v Hv. by apply elem_of_nil in Hv.
  - rewrite IH. setoid_rewrite elem_of_cons. split.
    + intros [Hm Hall]. split; [lia|]. intros w [->|Hw]; [lia|auto].
    + intros [Hi Hall]. split; [|auto]. pose proof (Hall v (or_introl eq_refl)). lia.
Qed.

#[export] Hint Resolve first_some_ext : c4.

(** Counting the indices below [n] that satisfy a predicate true exactly
    from [k] on. *)
Lemma count_seq_threshold (P : nat -> Prop) `{forall x, Decision (P x)} k n :
  (forall r, r < n -> (P r <-> k <= r)) ->
  length (filter P (seq 0 n)) = n - k.
Proof.
  induction n as [|n IH]; intros HP; [done|].
  rewrite seq_S, filter_app, length_app, IH by (intros; apply HP; lia).
  rewrite filter_cons. specialize (HP n ltac:(lia)).
  case_decide as Hn; simpl; [apply HP in Hn | rewrite HP in Hn]; lia.
Qed.

(** A fold whose every step moves the accumulator by at most [k] moves it
    by at most [k] times the number of steps. *)
Lemma fold_left_delta {A} (f : Z -> A -> Z) (k : Z) (l : list A) (acc : Z) :
  (forall acc x, (Z.abs (f acc x - acc) <= k)%Z) ->
  (Z.abs (fold_left f l acc - acc) <= k * Z.of_nat (length l))%Z.
Proof.
  intros Hf. revert acc. induction l as [|x l IH]; intros acc; simpl; [lia|].
  specialize (IH (f acc x)). specialize (Hf acc x). lia.
Qed.

(** Nested loops as one fold over the flattened sequence of their bodies. *)
Lemma fold_left_flat_map {A B C} (f : C -> B -> C) (g : A -> list B) (l : list A) (acc : C) :
  fold_left f (flat_map g l) acc = fold_left (fun acc x => fold_left f (g x) acc) l acc.
Proof. revert acc. induction l as [|x l IH]; intros acc; [done|]. simpl. by rewrite fold_left_app, IH. Qed.

Lemma fold_left_map_fuse {A B C} (f : C -> B -> C) (g : A -> B) (l : list A) (acc : C) :
  fold_left f (map g l) acc = fold_left (fun acc x => f acc (g x)) l acc.
Proof. revert acc. induction l as [|x l IH]; intros acc; [done|]. apply IH. Qed.

#[export] Hint Rewrite @fold_left_app @fold_left_flat_map @fold_left_map_fuse : c4_rw.

(** The running value of a fold after each prefix, when every step moves
    it by at most [k]. *)
Lemma fold_left_take_delta {A} (f : Z -> A -> Z) (k : Z) (l : list A) (acc : Z) n :
  (forall acc x, (Z.abs (f acc x - acc) <= k)%Z) ->
  (Z.abs (fold_left f (take n l) acc - acc) <= k * Z.of_nat (min n (length l)))%Z.
Proof. intros Hf. rewrite <- length_take. by apply fold_left_delta. Qed.

(** ** Strictly increasing lists of indices *)

Lemma seq_StronglySorted a n : StronglySorted lt (seq a n).
Proof.
  revert a. induction n as [|n IH]; intros a; simpl; [constructor|].
  apply StronglySorted_cons. split; [|apply IH].
  apply Forall_forall. intros x Hx%list_elem_of_In%in_seq. lia.
Qed.

Lemma StronglySorted_filter {A} (R : relation A) (P : A -> Prop)
    `{forall x, Decision (P x)} (l : list A) :
  StronglySorted R l -> StronglySorted R (filter P l).
Proof.
  induction l as [|x l IH]; intros Hs; [constructor|].
  apply StronglySorted_cons in Hs as [Hx Hs].
  rewrite filter_cons. case_decide; [|by apply IH].
  apply StronglySorted_cons. split; [|by apply IH].
  apply Forall_forall. intros y Hy%list_elem_of_filter.
  rewrite Forall_forall in Hx. apply Hx. by destruct Hy.
Qed.

(** In a strictly increasing list, what precedes an element is smaller and
    what follows it is larger. *)
Lemma StronglySorted_split (l1 l2 : list nat) m :
  StronglySorted lt (l1 ++ m :: l2) ->
  Forall (fun c => c < m) l1 /\ Forall (fun c => m < c) l2.
Proof.
  intros (Hlt & _ & Hs)%StronglySorted_app.
  apply StronglySorted_cons in Hs as [Hm _]. split; [|done].
  apply Forall_forall. intros c Hc. apply Hlt; [done|]. apply elem_of_cons; by left.
Qed.

(** ** Counting in lists of lists *)

(** Writing [y] over [x] at index [i] changes the number of [p]s by
    [[y = p] - [x = p]]. *)
Lemma filter_eq_insert {A} `{EqDecision A} (l : list A) i x y p :
  l !! i = Some x ->
  length (filter (fun z => z = p) (<[i:=y]> l)) + (if decide (x = p) then 1 else 0)
  = length (filter (fun z => z = p) l) + (if decide (y = p) then 1 else 0).
Proof.
  revert i. induction l as [|z l IH]; intros [|i] Hi; simpl in *; try discriminate.
  - injection Hi as ->. rewrite !filter_cons. repeat case_decide; simpl; try congruence; lia.
  - rewrite !filter_cons. specialize (IH i Hi). destruct (decide (z = p)); simpl; lia.
Qed.

Lemma sum_list_alter {A} (f : A -> nat) (g : A -> A) (rows : list A) r row :
  rows !! r = Some row ->
  sum_list (map f (alter g r rows)) + f row = sum_list (map f rows) + f (g row).
Proof.
  revert r. induction rows as [|x rows IH]; intros [|r] Hr; simpl in *; try discriminate.
  - injection Hr as ->. lia.
  - specialize (IH r Hr). change (alter g r rows) with (list_alter g r rows) in IH. lia.
Qed.

Lemma sum_list_lookup {A} (f : A -> nat) (rows : list A) r row :
  rows !! r = Some row -> f row <= sum_list (map f rows).
Proof.
  revert r. induction rows as [|x rows IH]; intros [|r] Hr; simpl in *; try discriminate.
  - injection Hr as ->. lia.
  - specialize (IH r Hr). lia.
Qed.

Lemma sum_list_const {A} (f : A -> nat) (rows : list A) k :
  Forall (fun row => f row = k) rows -> sum_list (map f rows) = length rows * k.
Proof. induction 1; simpl; lia. Qed.

Lemma filter_eq_pos {A} `{EqDecision A} (l : list A) i p :
  l !! i = Some p -> 1 <= length (filter (fun z => z = p) l).
Proof.
  revert i. induction l as [|z l IH]; intros [|i] Hi; simpl in *; try discriminate;
    rewrite filter_cons; case_decide; simpl; [lia|congruence|lia|eauto].
Qed.

(** A fold of state updates that each keep an invariant keeps it. *)
Lemma fold_left_invariant {A B} (I : A -> Prop) (f : A -> B -> A) (l : list B) (a : A) :
  (forall a x, I a -> I (f a x)) -> I a -> I (fold_left f l a).
Proof. intros Hf. revert a. induction l; simpl; auto. Qed.

(** ** Tables built by [fmap] over [seq] *)

Lemma lookup_fmap_seq0 {A} (g : nat -> A) n i :
  (g <$> seq 0 n) !! i = if decide (i < n) then Some (g i) else None.
Proof.
  rewrite list_lookup_fmap. case_decide.
  - by rewrite lookup_seq_lt.
  - by rewrite lookup_seq_ge by lia.
Qed.

(** ** Loops whose body may fail

    [for_each l f s] runs [f x] on the state for each [x] of [l] in
    order and stops with [None] at the first failure: a C++ [for] loop
    whose body may reach undefined behaviour. *)
Fixpoint for_each {A S} (l : list A) (f : A -> S -> option S) (s : S) : option S :=
  match l with
  | [] => Some s
  | x :: l' => f x s ≫= for_each l' f
  end.

Lemma for_each_app {A S} (l1 l2 : list A) (f : A -> S -> option S) s :
  for_each (l1 ++ l2) f s = for_each l1 f s ≫= for_each l2 f.
Proof.
  revert s. induction l1 as [|x l1 IH]; intros s; simpl; [done|].
  destruct (f x s); simpl; [apply IH|done].
Qed.

(** Case analysis on every [bool_decide] in the goal. *)
Ltac case_bool_decide_all :=
  repeat match goal with
         | |- context [bool_decide ?P] => destruct (bool_decide_reflect P)
         end.
