(* ===== verification/Board.v ===== *)
(** * The board engine of [src/board.h]

    Module [Board] models class [Board]: the piece and win-state constants
    as inductive types, the [pieces[ROWS][COLUMNS]] array as a record
    holding a list of rows, and one definition per method.  The lemmas
    give the read/write algebra of the grid, the gravity invariant kept by
    [addMove], and the specification of [checkWin]. *)

From S2P Require Import Prelude.

Module Board.

(** ** Data: [static const int PIECE_*], [WIN_STATE_*] (board.h 9-19) *)

Inductive piece := PIECE_EMPTY | PIECE_A | PIECE_B.

#[global] Instance piece_eq_dec : EqDecision piece.
Proof. solve_decision. Defined.

Inductive win_state :=
  WIN_STATE_NOT_FINISHED | WIN_STATE_DRAW | WIN_STATE_A | WIN_STATE_B.

#[global] Instance win_state_eq_dec : EqDecision win_state.
Proof. solve_decision. Defined.

Definition ROWS : nat := 6.
Definition COLUMNS : nat := 7.

(** [lia] over the board dimensions. *)
Ltac dims_lia := unfold ROWS, COLUMNS in *; lia.

(** [int pieces[ROWS][COLUMNS]]: row [0] is the top row. *)
Record board := mkBoard { pieces : list (list piece) }.

(** The array always has [ROWS] rows of [COLUMNS] cells. *)
Definition wf (b : board) : Prop :=
  length (pieces b) = ROWS /\ Forall (fun row => length row = COLUMNS) (pieces b).

(** ** Methods *)

(** [getPiece]: [pieces[row][col]].  Out of range is undefined behaviour in
    C++; here it reads [PIECE_EMPTY]. *)
Definition getPiece (b : board) (row col : nat) : piece :=
  match pieces b !! row with
  | Some cells => default PIECE_EMPTY (cells !! col)
  | None => PIECE_EMPTY
  end.

(** [setPiece]: [pieces[row][col] = piece]. *)
Definition setPiece (b : board) (row col : nat) (piece : piece) : board :=
  mkBoard (alter (fun cells => <[col := piece]> cells) row (pieces b)).

(** [reset]: the two nested loops writing [PIECE_EMPTY] to every cell. *)
Definition reset (b : board) : board :=
  fold_left (fun b r =>
    fold_left (fun b c => setPiece b r c PIECE_EMPTY) (seq 0 COLUMNS) b)
    (seq 0 ROWS) b.

(** [Board::Board()] runs [reset] on the uninitialised array [garbage]. *)
Definition Board_new (garbage : board) : board := reset garbage.

(** [addMove]: [for(row = ROWS - 1; row >= 0; row--)] from the bottom row
    up; [addMove_from b col piece n] runs the iterations [row = n-1, ...,
    0].  Falling out of the loop returns no value from a non-void
    function, undefined behaviour: [None]. *)
Fixpoint addMove_from (b : board) (col : nat) (piece : piece) (n : nat)
  : option (nat * board) :=
  match n with
  | 0 => None
  | S row =>
      if decide (getPiece b row col = PIECE_EMPTY)
      then Some (row, setPiece b row col piece)
      else addMove_from b col piece row
  end.

Definition addMove (b : board) (col : nat) (piece : piece) : option (nat * board) :=
  addMove_from b col piece ROWS.

(** One [if] pair of [checkWin]: four cells all [PIECE_A] return
    [WIN_STATE_A], else all [PIECE_B] return [WIN_STATE_B]. *)
Definition window_winner (b : board) (cells : list (nat * nat)) : option win_state :=
  if forallb (fun '(r, c) => bool_decide (getPiece b r c = PIECE_A)) cells
  then Some WIN_STATE_A
  else if forallb (fun '(r, c) => bool_decide (getPiece b r c = PIECE_B)) cells
  then Some WIN_STATE_B
  else None.

(** The four windows the loops of [checkWin] read, cells in source order. *)
Definition vertical_window (r c : nat) : list (nat * nat) :=
  [(r, c); (r + 1, c); (r + 2, c); (r + 3, c)].
Definition horizontal_window (r c : nat) : list (nat * nat) :=
  [(r, c); (r, c + 1); (r, c + 2); (r, c + 3)].
Definition diagonal_window (r c : nat) : list (nat * nat) :=
  [(r, c); (r + 1, c + 1); (r + 2, c + 2); (r + 3, c + 3)].
Definition antidiagonal_window (r c : nat) : list (nat * nat) :=
  [(r + 3, c); (r + 2, c + 1); (r + 1, c + 2); (r, c + 3)].

(** "Check vertical": columns outer, rows inner. *)
Definition checkWin_vertical (b : board) : option win_state :=
  first_some (fun c =>
    first_some (fun r => window_winner b (vertical_window r c)) (seq 0 (ROWS - 3)))
    (seq 0 COLUMNS).

(** "Check horizontal": rows outer, columns inner. *)
Definition checkWin_horizontal (b : board) : option win_state :=
  first_some (fun r =>
    first_some (fun c => window_winner b (horizontal_window r c)) (seq 0 (COLUMNS - 3)))
    (seq 0 ROWS).

(** "Check diagonal": anchor column outer, row inner; the down-right
    window before the up-right one at each anchor. *)
Definition checkWin_diagonal (b : board) : option win_state :=
  first_some (fun c =>
    first_some (fun r =>
      option_orelse (window_winner b (diagonal_window r c))
                    (window_winner b (antidiagonal_window r c)))
      (seq 0 (ROWS - 3)))
    (seq 0 (COLUMNS - 3)).

(** "Not finished" loop over the top row, then "Draw". *)
Definition checkWin_top (b : board) : win_state :=
  default WIN_STATE_DRAW
    (first_some (fun i => if decide (getPiece b 0 i = PIECE_EMPTY)
                          then Some WIN_STATE_NOT_FINISHED else None)
       (seq 0 COLUMNS)).

Definition checkWin (b : board) : win_state :=
  match checkWin_vertical b with
  | Some w => w
  | None =>
      match checkWin_horizontal b with
      | Some w => w
      | None =>
          match checkWin_diagonal b with
          | Some w => w
          | None => checkWin_top b
          end
      end
  end.

Definition isColumnOpen (b : board) (col : nat) : bool :=
  bool_decide (getPiece b 0 col = PIECE_EMPTY).

Definition winStateToPiece (winState : win_state) : piece :=
  match winState with
  | WIN_STATE_A => PIECE_A
  | WIN_STATE_B => PIECE_B
  | _ => PIECE_EMPTY
  end.

Definition pieceToWinState (piece : piece) : win_state :=
  match piece with
  | PIECE_A => WIN_STATE_A
  | PIECE_B => WIN_STATE_B
  | PIECE_EMPTY => WIN_STATE_NOT_FINISHED
  end.

(** ** The all-empty board and the gravity invariant *)

Definition empty_board : board :=
  mkBoard (replicate ROWS (replicate COLUMNS PIECE_EMPTY)).

(** Gravity, as an executable check: no occupied cell sits over an empty
    one in the same column. *)
Definition gravity_ok (b : board) : bool :=
  forallb (fun c =>
    forallb (fun r => bool_decide (getPiece b r c = PIECE_EMPTY)
                      || bool_decide (getPiece b (S r) c <> PIECE_EMPTY))
      (seq 0 (ROWS - 1)))
    (seq 0 COLUMNS).

(** The number of occupied cells of a column. *)
Definition column_count (b : board) (col : nat) : nat :=
  length (filter (fun r => getPiece b r col <> PIECE_EMPTY) (seq 0 ROWS)).

(** ** The read/write algebra of the grid *)

Lemma getPiece_setPiece_same b r c p :
  wf b -> r < ROWS -> c < COLUMNS -> getPiece (setPiece b r c p) r c = p.
Proof.
  intros [Hlen Hrows] Hr Hc. unfold getPiece, setPiece; simpl.
  rewrite list_lookup_alter.
  destruct (pieces b !! r) as [cells|] eqn:E; simpl.
  - rewrite decide_True by done. simpl.
    rewrite list_lookup_insert_eq; [done|].
    rewrite Forall_lookup in Hrows. rewrite (Hrows r cells E). done.
  - apply lookup_ge_None in E. lia.
Qed.

Lemma getPiece_setPiece_other b r c p r' c' :
  (r, c) <> (r', c') -> getPiece (setPiece b r c p) r' c' = getPiece b r' c'.
Proof.
  intros Hne. unfold getPiece, setPiece; simpl.
  rewrite list_lookup_alter. case_decide as Hr; [subst r'|done].
  destruct (pieces b !! r) as [cells|]; simpl; [|done].
  rewrite list_lookup_insert_ne; [done|]. congruence.
Qed.

Lemma setPiece_wf b r c p : wf b -> wf (setPiece b r c p).
Proof.
  intros [Hlen Hrows]. unfold wf, setPiece; simpl. split.
  - by rewrite length_alter.
  - apply Forall_lookup. intros i cells Hi.
    rewrite list_lookup_alter in Hi. rewrite Forall_lookup in Hrows.
    case_decide as Hri; [subst i|].
    + destruct (pieces b !! r) as [cells0|] eqn:E; simpl in Hi; [|done].
      injection Hi as <-. rewrite length_insert. eauto.
    + eauto.
Qed.

Lemma setPiece_setPiece_same b r c p q :
  setPiece (setPiece b r c p) r c q = setPiece b r c q.
Proof.
  unfold setPiece; simpl. f_equal. rewrite list_alter_alter_eq.
  apply list_alter_ext; [|done]. intros cells _. simpl.
  rewrite list_insert_insert. by rewrite decide_True.
Qed.

(** Writing [PIECE_EMPTY] over a cell that reads [PIECE_EMPTY] changes
    nothing, in range or not. *)
Lemma setPiece_empty_id b r c :
  getPiece b r c = PIECE_EMPTY -> setPiece b r c PIECE_EMPTY = b.
Proof.
  unfold getPiece, setPiece. destruct b as [rows]; simpl. intros Hget. f_equal.
  transitivity (alter (fun cells => cells) r rows); [|by apply list_alter_id].
  apply list_alter_ext; [|done]. intros cells Hcells. rewrite Hcells in Hget.
  destruct (cells !! c) as [x|] eqn:Ec; simpl in Hget.
  - subst x. by apply list_insert_id.
  - apply list_insert_ge. by apply lookup_ge_None.
Qed.

(** Two well-formed boards with the same cells are equal. *)
Lemma board_eq b1 b2 :
  wf b1 -> wf b2 ->
  (forall r c, r < ROWS -> c < COLUMNS -> getPiece b1 r c = getPiece b2 r c) ->
  b1 = b2.
Proof.
  destruct b1 as [rows1], b2 as [rows2]. intros [L1 F1] [L2 F2] Hcells.
  unfold getPiece in Hcells; simpl in *. f_equal. apply list_eq. intros r.
  rewrite Forall_lookup in F1, F2.
  destruct (rows1 !! r) as [cs1|] eqn:E1, (rows2 !! r) as [cs2|] eqn:E2.
  - f_equal. apply list_eq. intros c.
    pose proof (F1 _ _ E1) as H1. pose proof (F2 _ _ E2) as H2.
    destruct (decide (c < COLUMNS)) as [Hc|Hc].
    + assert (r < ROWS) by (apply lookup_lt_Some in E1; lia).
      specialize (Hcells r c ltac:(done) Hc). rewrite E1, E2 in Hcells.
      destruct (lookup_lt_is_Some_2 cs1 c) as [x1 X1]; [lia|].
      destruct (lookup_lt_is_Some_2 cs2 c) as [x2 X2]; [lia|].
      rewrite X1, X2 in Hcells |- *. by f_equal.
    + rewrite !lookup_ge_None_2 by lia. done.
  - apply lookup_lt_Some in E1. apply lookup_ge_None in E2. lia.
  - apply lookup_lt_Some in E2. apply lookup_ge_None in E1. lia.
  - done.
Qed.

Lemma empty_board_wf : wf empty_board.
Proof.
  split; [done|]. repeat constructor.
Qed.

Lemma getPiece_empty_board r c : getPiece empty_board r c = PIECE_EMPTY.
Proof.
  unfold getPiece, empty_board; cbn [pieces].
  destruct (replicate ROWS (replicate COLUMNS PIECE_EMPTY) !! r) as [cells|] eqn:E; [|done].
  apply lookup_replicate in E as [-> _].
  destruct (replicate COLUMNS PIECE_EMPTY !! c) eqn:E'; [|done].
  by apply lookup_replicate in E' as [-> _].
Qed.

#[export] Hint Resolve setPiece_wf empty_board_wf : c4.

(** ** [reset] *)

Lemma getPiece_reset_row b r cs r' c' :
  wf b -> r' < ROWS -> c' < COLUMNS ->
  getPiece (fold_left (fun b c => setPiece b r c PIECE_EMPTY) cs b) r' c'
  = if decide (r' = r /\ c' ∈ cs) then PIECE_EMPTY else getPiece b r' c'.
Proof.
  revert b. induction cs as [|c cs IH]; intros b Hwf Hr Hc; simpl.
  { rewrite decide_False; [done|]. rewrite elem_of_nil. naive_solver. }
  rewrite IH by auto with c4.
  destruct (decide ((r', c') = (r, c))) as [Heq|Hne].
  - injection Heq as -> ->. rewrite getPiece_setPiece_same by done.
    destruct (decide (r = r /\ c ∈ c :: cs)) as [_|Hn]; [by case_decide|].
    exfalso; apply Hn; split; [done|apply elem_of_cons; by left].
  - rewrite getPiece_setPiece_other by congruence.
    repeat case_decide; try done; exfalso; set_solver.
Qed.

Lemma getPiece_reset_rows b rs r' c' :
  wf b -> r' < ROWS -> c' < COLUMNS ->
  getPiece (fold_left (fun b r =>
     fold_left (fun b c => setPiece b r c PIECE_EMPTY) (seq 0 COLUMNS) b) rs b) r' c'
  = if decide (r' ∈ rs) then PIECE_EMPTY else getPiece b r' c'.
Proof.
  revert b. induction rs as [|r rs IH]; intros b Hwf Hr Hc; cbn [fold_left]; [done|].
  rewrite IH; [| |done|done]; [|apply (fold_left_invariant wf); auto with c4].
  rewrite getPiece_reset_row by done.
  assert (c' ∈ seq 0 COLUMNS) by (apply elem_of_seq; lia).
  repeat case_decide; try done; exfalso; set_solver.
Qed.

Lemma reset_wf b : wf b -> wf (reset b).
Proof.
  intros Hwf. unfold reset. apply fold_left_invariant; [|done].
  intros b' r Hb'. apply fold_left_invariant; auto with c4.
Qed.

(** ** [addMove]: the scan from the bottom row *)

Lemma addMove_from_Some b col p n row b' :
  addMove_from b col p n = Some (row, b') ->
  row < n /\ getPiece b row col = PIECE_EMPTY /\
  (forall r, row < r < n -> getPiece b r col <> PIECE_EMPTY) /\
  b' = setPiece b row col p.
Proof.
  induction n as [|n IH]; simpl; [discriminate|].
  case_decide as He.
  - intros [= <- <-]. split_and!; [lia|done| |done]. intros r Hr; lia.
  - intros H. destruct (IH H) as (Hlt & He' & Hocc & ->).
    split_and!; [lia|done| |done].
    intros r Hr. destruct (decide (r = n)); [by subst|]. apply Hocc; lia.
Qed.

Lemma addMove_from_None b col p n :
  addMove_from b col p n = None <->
  forall r, r < n -> getPiece b r col <> PIECE_EMPTY.
Proof.
  induction n as [|n IH]; simpl; [split; [intros _ r; lia|done]|].
  case_decide as He.
  - split; [discriminate|]. intros H. exfalso. exact (H n ltac:(lia) He).
  - rewrite IH. split; intros H r Hr; [|apply H; lia].
    destruct (decide (r = n)); [by subst|]. apply H; lia.
Qed.

(** Undoing a drop, [setPiece(row, col, PIECE_EMPTY)] as [AI] does,
    restores the board exactly. *)
Lemma addMove_undo b col p row b' :
  addMove b col p = Some (row, b') -> setPiece b' row col PIECE_EMPTY = b.
Proof.
  intros (_ & He & _ & ->)%addMove_from_Some.
  rewrite setPiece_setPiece_same. by apply setPiece_empty_id.
Qed.

Lemma addMove_Some_of_open b col p :
  isColumnOpen b col = true -> exists row b', addMove b col p = Some (row, b').
Proof.
  unfold isColumnOpen. intros H%bool_decide_eq_true_1.
  destruct (addMove b col p) as [[row b']|] eqn:E; [eauto|].
  apply addMove_from_None with (r := 0) in E; [done|unfold ROWS; lia].
Qed.

Lemma addMove_wf b col p row b' :
  wf b -> addMove b col p = Some (row, b') -> wf b'.
Proof. intros Hwf (_ & _ & _ & ->)%addMove_from_Some. auto with c4. Qed.

(** ** Gravity *)

Lemma gravity_ok_spec b :
  gravity_ok b = true <->
  forall r c, S r < ROWS -> c < COLUMNS ->
    getPiece b r c <> PIECE_EMPTY -> getPiece b (S r) c <> PIECE_EMPTY.
Proof.
  unfold gravity_ok. rewrite forallb_forall.
  setoid_rewrite forallb_forall. setoid_rewrite in_seq.
  setoid_rewrite orb_true_iff. setoid_rewrite bool_decide_eq_true.
  split; intros H.
  - intros r c Hr Hc Hne.
    destruct (H c ltac:(lia) r ltac:(unfold ROWS in *; lia)); done.
  - intros c Hc r Hr.
    destruct (decide (getPiece b r c = PIECE_EMPTY)); [by left|right].
    apply H; [unfold ROWS in *; lia|lia|done].
Qed.

(** Under gravity, every cell below an occupied cell is occupied. *)
Lemma gravity_below b r r' c :
  gravity_ok b = true -> c < COLUMNS -> r <= r' < ROWS ->
  getPiece b r c <> PIECE_EMPTY -> getPiece b r' c <> PIECE_EMPTY.
Proof.
  rewrite gravity_ok_spec. intros Hg Hc [Hle Hr'].
  induction Hle as [|r' Hle IH]; intros Hne; [done|].
  apply Hg; [lia|done|]. apply IH; [lia|done].
Qed.

(** In a gravity column whose lowest empty cell is [row], the occupied
    cells are exactly the rows below [row]. *)
Lemma gravity_column b col row :
  gravity_ok b = true -> col < COLUMNS -> row < ROWS ->
  getPiece b row col = PIECE_EMPTY ->
  (forall r, row < r < ROWS -> getPiece b r col <> PIECE_EMPTY) ->
  forall r, r < ROWS -> (getPiece b r col <> PIECE_EMPTY <-> S row <= r).
Proof.
  intros Hg Hc Hrow He Hocc r Hr. split; [|intros; apply Hocc; lia].
  intros Hne. destruct (decide (S row <= r)); [done|].
  exfalso. apply (gravity_below b r row col Hg Hc); [lia|done|done].
Qed.

Lemma addMove_preserves_gravity b col p row b' :
  wf b -> gravity_ok b = true -> p <> PIECE_EMPTY ->
  addMove b col p = Some (row, b') -> gravity_ok b' = true.
Proof.
  intros Hwf Hg Hp (Hrow & He & Hocc & ->)%addMove_from_Some.
  rewrite gravity_ok_spec in *. intros r c Hr Hc Hne.
  destruct (decide ((row, col) = (S r, c))) as [Heq|Hne1].
  - injection Heq as -> ->. by rewrite getPiece_setPiece_same.
  - rewrite getPiece_setPiece_other by done.
    destruct (decide ((row, col) = (r, c))) as [Heq'|Hne2].
    + injection Heq' as -> ->. apply Hocc. unfold ROWS in *; lia.
    + rewrite getPiece_setPiece_other in Hne by done. by apply Hg.
Qed.

(** The number of occupied cells of a column whose occupied cells are the
    rows from [k] down. *)
Lemma column_count_threshold b col k :
  (forall r, r < ROWS -> (getPiece b r col <> PIECE_EMPTY <-> k <= r)) ->
  column_count b col = ROWS - k.
Proof. apply count_seq_threshold. Qed.

Lemma addMove_None_full b col p :
  addMove b col p = None -> column_count b col = ROWS.
Proof.
  intros Hn. unfold addMove in Hn. rewrite addMove_from_None in Hn.
  rewrite (column_count_threshold b col 0); [lia|].
  intros r Hr. split; [lia|]. intros _. by apply Hn.
Qed.

(** ** What [checkWin] decides *)

(** The four orientations of a line of four, each from its anchor cell
    [(r, c)]: the [i]-th cell of the line, [i < 4]. *)
Inductive orientation := Vertical | Horizontal | DiagDown | DiagUp.

Definition line (o : orientation) (r c i : nat) : nat * nat :=
  match o with
  | Vertical => (r + i, c)
  | Horizontal => (r, c + i)
  | DiagDown => (r + i, c + i)
  | DiagUp => (r + (3 - i), c + i)
  end.

(** [p] occupies four cells in a line, all inside the grid. *)
Definition four_in_a_row (b : board) (p : piece) : Prop :=
  exists o r c, forall i, i < 4 ->
    (line o r c i).1 < ROWS /\ (line o r c i).2 < COLUMNS /\
    getPiece b (line o r c i).1 (line o r c i).2 = p.

(** The window the code reads for each orientation. *)
Definition code_window (o : orientation) (r c : nat) : list (nat * nat) :=
  match o with
  | Vertical => vertical_window r c
  | Horizontal => horizontal_window r c
  | DiagDown => diagonal_window r c
  | DiagUp => antidiagonal_window r c
  end.

Lemma code_window_line o r c : code_window o r c = map (line o r c) (seq 0 4).
Proof. destruct o; simpl; by rewrite ?Nat.add_0_r. Qed.

Definition window_all (b : board) (p : piece) (cells : list (nat * nat)) : Prop :=
  Forall (fun '(r, c) => getPiece b r c = p) cells.

Lemma forallb_window b p cells :
  forallb (fun '(r, c) => bool_decide (getPiece b r c = p)) cells = true <->
  window_all b p cells.
Proof.
  unfold window_all. rewrite forallb_forall, Forall_forall.
  split; intros H [r c] Hin; [apply list_elem_of_In in Hin|];
    [apply (bool_decide_eq_true_1 _ (H (r, c) Hin))|].
  apply bool_decide_eq_true_2, (H (r, c)), list_elem_of_In, Hin.
Qed.

Lemma window_winner_Some b cells w :
  window_winner b cells = Some w ->
  (w = WIN_STATE_A /\ window_all b PIECE_A cells) \/
  (w = WIN_STATE_B /\ window_all b PIECE_B cells).
Proof.
  unfold window_winner. rewrite <- !forallb_window.
  repeat case_match; intros [= <-]; auto.
Qed.

Lemma window_winner_None b cells :
  window_winner b cells = None ->
  ~ window_all b PIECE_A cells /\ ~ window_all b PIECE_B cells.
Proof.
  unfold window_winner. rewrite <- !forallb_window.
  repeat case_match; intros; try discriminate; split; congruence.
Qed.

Lemma window_winner_all b cells p :
  p <> PIECE_EMPTY -> window_all b p cells -> window_winner b cells <> None.
Proof.
  intros Hp Hall [HA HB]%window_winner_None. destruct p; [done| |]; contradiction.
Qed.

(** A complete window of the code, with its anchor in the scanned range,
    is a line of four inside the grid. *)
Lemma window_four b p o r c :
  (line o r c 0).1 < ROWS -> (line o r c 3).1 < ROWS ->
  (line o r c 3).2 < COLUMNS ->
  window_all b p (code_window o r c) -> four_in_a_row b p.
Proof.
  rewrite code_window_line. unfold window_all. rewrite Forall_map.
  intros H0 H3 Hc Hall. exists o, r, c. intros i Hi.
  rewrite Forall_forall in Hall.
  pose proof (Hall i ltac:(apply elem_of_seq; lia)) as Hi'.
  destruct (line o r c i) as [ri ci] eqn:E. simpl in *.
  destruct o; simpl in *; injection E as <- <-; split_and!; try lia; done.
Qed.

(** The anchors the loops of [checkWin] visit, per orientation. *)
Definition anchor_ok (o : orientation) (r c : nat) : Prop :=
  match o with
  | Vertical => r + 3 < ROWS /\ c < COLUMNS
  | Horizontal => r < ROWS /\ c + 3 < COLUMNS
  | DiagDown | DiagUp => r + 3 < ROWS /\ c + 3 < COLUMNS
  end.

(** Whatever window a scan of [checkWin] returns from is complete. *)
Lemma scans_Some b w :
  checkWin_vertical b = Some w \/ checkWin_horizontal b = Some w \/
  checkWin_diagonal b = Some w ->
  exists o r c, anchor_ok o r c /\ window_winner b (code_window o r c) = Some w.
Proof.
  unfold checkWin_vertical, checkWin_horizontal, checkWin_diagonal.
  intros [H|[H|H]]; apply first_some_In in H as (x & Hx%in_seq & H);
    apply first_some_In in H as (y & Hy%in_seq & H); simpl in Hx, Hy.
  - exists Vertical, y, x. simpl; unfold ROWS, COLUMNS in *; split; [lia|done].
  - exists Horizontal, x, y. simpl; unfold ROWS, COLUMNS in *; split; [lia|done].
  - destruct (window_winner b (diagonal_window y x)) eqn:E; simpl in H.
    + injection H as <-. exists DiagDown, y, x. simpl; unfold ROWS, COLUMNS in *; split; [lia|done].
    + exists DiagUp, y, x. simpl; unfold ROWS, COLUMNS in *; split; [lia|done].
Qed.

Lemma anchor_four b p o r c :
  anchor_ok o r c -> window_all b p (code_window o r c) -> four_in_a_row b p.
Proof.
  intros Ha. apply window_four; destruct o; simpl in *; lia.
Qed.

(** Every line of four inside the grid is a window the loops visit. *)
Lemma four_anchor b p :
  four_in_a_row b p ->
  exists o r c, anchor_ok o r c /\ window_all b p (code_window o r c).
Proof.
  intros (o & r & c & H). exists o, r, c.
  pose proof (H 0 ltac:(lia)) as H0. pose proof (H 3 ltac:(lia)) as H3.
  split; [destruct o; simpl in *; lia|].
  rewrite code_window_line. unfold window_all. apply Forall_map, Forall_forall.
  intros i Hi%list_elem_of_In%in_seq. destruct (H i ltac:(lia)) as (_ & _ & Hp).
  by destruct (line o r c i).
Qed.

Lemma scan_hits b o r c :
  anchor_ok o r c -> window_winner b (code_window o r c) <> None ->
  checkWin_vertical b <> None \/ checkWin_horizontal b <> None \/
  checkWin_diagonal b <> None.
Proof.
  unfold checkWin_vertical, checkWin_horizontal, checkWin_diagonal.
  intros Ha Hw.
  assert (Hin : forall x n, x < n -> In x (seq 0 n)) by (intros; apply in_seq; dims_lia).
  destruct o; simpl in Ha, Hw; [left|right; left|right; right|right; right]; intros Hn.
  - apply (first_some_None_In _ _ c) in Hn; [|apply Hin; dims_lia].
    apply (first_some_None_In _ _ r) in Hn; [done|apply Hin; simpl; dims_lia].
  - apply (first_some_None_In _ _ r) in Hn; [|apply Hin; dims_lia].
    apply (first_some_None_In _ _ c) in Hn; [done|apply Hin; simpl; dims_lia].
  - apply (first_some_None_In _ _ c) in Hn; [|apply Hin; simpl; dims_lia].
    apply (first_some_None_In _ _ r) in Hn; [|apply Hin; simpl; dims_lia].
    apply option_orelse_None in Hn. tauto.
  - apply (first_some_None_In _ _ c) in Hn; [|apply Hin; simpl; dims_lia].
    apply (first_some_None_In _ _ r) in Hn; [|apply Hin; simpl; dims_lia].
    apply option_orelse_None in Hn. tauto.
Qed.

Lemma scans_complete b p :
  p <> PIECE_EMPTY -> four_in_a_row b p ->
  checkWin_vertical b <> None \/ checkWin_horizontal b <> None \/
  checkWin_diagonal b <> None.
Proof.
  intros Hp (o & r & c & Ha & Hall)%four_anchor.
  eapply scan_hits; [done|]. by eapply window_winner_all.
Qed.

(** The three scans find nothing exactly when no player has four. *)
Lemma scans_None b :
  ~ four_in_a_row b PIECE_A -> ~ four_in_a_row b PIECE_B ->
  checkWin_vertical b = None /\ checkWin_horizontal b = None /\
  checkWin_diagonal b = None.
Proof.
  intros HA HB.
  assert (Hno : forall w, ~ (checkWin_vertical b = Some w \/ checkWin_horizontal b = Some w \/
                             checkWin_diagonal b = Some w)).
  { intros w (o & r & c & Ha & Hw)%scans_Some.
    destruct (window_winner_Some _ _ _ Hw) as [[_ Hall]|[_ Hall]];
      eapply anchor_four in Hall; eauto. }
  split_and!; [destruct (checkWin_vertical b) eqn:E|destruct (checkWin_horizontal b) eqn:E
              |destruct (checkWin_diagonal b) eqn:E]; try done; exfalso; eapply Hno; eauto.
Qed.

Lemma checkWin_top_cases b :
  (checkWin_top b = WIN_STATE_NOT_FINISHED /\
     exists c, c < COLUMNS /\ getPiece b 0 c = PIECE_EMPTY) \/
  (checkWin_top b = WIN_STATE_DRAW /\
     forall c, c < COLUMNS -> getPiece b 0 c <> PIECE_EMPTY).
Proof.
  unfold checkWin_top.
  destruct (first_some _ (seq 0 COLUMNS)) as [w|] eqn:E; simpl.
  - left. apply first_some_In in E as (c & Hc%in_seq & Hw).
    case_decide; [|done]. injection Hw as <-. split; [done|]. exists c; split; [lia|done].
  - right. split; [done|]. intros c Hc He.
    apply (first_some_None_In _ _ c) in E; [|apply in_seq; lia]. simpl in E.
    by rewrite decide_True in E.
Qed.

(** The winner [checkWin] reports, if any, has four in a row. *)
Lemma checkWin_scan_winner b :
  checkWin b = WIN_STATE_A /\ four_in_a_row b PIECE_A \/
  checkWin b = WIN_STATE_B /\ four_in_a_row b PIECE_B \/
  (checkWin b = checkWin_top b /\ ~ four_in_a_row b PIECE_A /\ ~ four_in_a_row b PIECE_B).
Proof.
  unfold checkWin.
  destruct (checkWin_vertical b) as [w|] eqn:Ev;
    [|destruct (checkWin_horizontal b) as [w|] eqn:Eh;
      [|destruct (checkWin_diagonal b) as [w|] eqn:Ed]].
  1-3: destruct (scans_Some b w ltac:(auto)) as (o & r & c & Ha & Hwin);
       destruct (window_winner_Some _ _ _ Hwin) as [[-> Hall]|[-> Hall]];
       apply anchor_four in Hall; intuition auto.
  right; right. split; [done|].
  split; intros Hf; apply scans_complete in Hf; naive_solver.
Qed.

(** ** Deciding four-in-a-row *)

#[global] Instance anchor_ok_dec o r c : Decision (anchor_ok o r c).
Proof. destruct o; simpl; apply _. Defined.

Definition anchors : list (orientation * nat * nat) :=
  flat_map (fun o => flat_map (fun r => map (fun c => (o, r, c)) (seq 0 COLUMNS))
                                (seq 0 ROWS))
    [Vertical; Horizontal; DiagDown; DiagUp].

Definition four_in_a_rowb (b : board) (p : piece) : bool :=
  existsb (fun '(o, r, c) =>
    bool_decide (anchor_ok o r c) &&
    forallb (fun '(r, c) => bool_decide (getPiece b r c = p)) (code_window o r c))
    anchors.

Lemma in_anchors o r c : r < ROWS -> c < COLUMNS -> In (o, r, c) anchors.
Proof.
  intros Hr Hc. unfold anchors. apply in_flat_map. exists o.
  split; [destruct o; simpl; tauto|]. apply in_flat_map. exists r.
  split; [apply in_seq; lia|]. apply in_map_iff. exists c. split; [done|apply in_seq; lia].
Qed.

Lemma four_in_a_rowb_spec b p : four_in_a_rowb b p = true <-> four_in_a_row b p.
Proof.
  unfold four_in_a_rowb. rewrite existsb_exists. split.
  - intros ([[o r] c] & _ & (Ha%bool_decide_eq_true_1 & Hall)%andb_prop).
    apply forallb_window in Hall. by eapply anchor_four.
  - intros (o & r & c & Ha & Hall)%four_anchor. exists (o, r, c). split.
    + apply in_anchors; destruct o; simpl in Ha; lia.
    + apply andb_true_intro. split; [by apply bool_decide_eq_true_2|by apply forallb_window].
Qed.

#[global] Instance four_in_a_row_dec b p : Decision (four_in_a_row b p).
Proof.
  destruct (four_in_a_rowb b p) eqn:E; [left|right];
    rewrite <- four_in_a_rowb_spec; congruence.
Defined.

(** The windows of [checkWin] flattened in the order its loops visit them. *)
Definition scan_order : list (list (nat * nat)) :=
  flat_map (fun c => map (fun r => vertical_window r c) (seq 0 (ROWS - 3))) (seq 0 COLUMNS) ++
  flat_map (fun r => map (fun c => horizontal_window r c) (seq 0 (COLUMNS - 3))) (seq 0 ROWS) ++
  flat_map (fun c => flat_map (fun r => [diagonal_window r c; antidiagonal_window r c])
                                (seq 0 (ROWS - 3)))
    (seq 0 (COLUMNS - 3)).

Lemma reset_is_empty b : wf b -> reset b = empty_board.
Proof.
  intros Hwf. apply board_eq; [by apply reset_wf|apply empty_board_wf|].
  intros r c Hr Hc. rewrite getPiece_empty_board. unfold reset.
  rewrite getPiece_reset_rows by done.
  rewrite decide_True; [done|apply elem_of_seq; lia].
Qed.

(** Under gravity a closed column is full: [addMove] falls through. *)
Lemma addMove_None_of_closed b col p :
  gravity_ok b = true -> col < COLUMNS -> isColumnOpen b col = false ->
  addMove b col p = None.
Proof.
  intros Hg Hc H0%bool_decide_eq_false. unfold addMove. apply addMove_from_None.
  intros r Hr. apply (gravity_below b 0 r col Hg Hc); [lia|done].
Qed.

(** ** Properties of the board engine *)

(** C12: Gravity.  On a well-formed board that satisfies the gravity
    invariant, dropping a piece into a column holding [k < ROWS] pieces
    succeeds, lands at row [ROWS - 1 - k] (row 0 is the top), writes only
    that cell, keeps the gravity invariant and raises the column's count to
    [k + 1]. *)
Theorem addMove_gravity b col p :
  wf b -> gravity_ok b = true -> col < COLUMNS -> p <> PIECE_EMPTY ->
  column_count b col < ROWS ->
  exists b', addMove b col p = Some (ROWS - 1 - column_count b col, b') /\
    b' = setPiece b (ROWS - 1 - column_count b col) col p /\
    gravity_ok b' = true /\ column_count b' col = S (column_count b col).
Proof.
  intros Hwf Hg Hc Hp Hk.
  destruct (addMove b col p) as [[row b']|] eqn:E; [|apply addMove_None_full in E; lia].
  pose proof E as (Hrow & He & Hocc & ->)%addMove_from_Some.
  assert (Hcol := gravity_column b col row Hg Hc Hrow He Hocc).
  rewrite (column_count_threshold b col (S row)) by done.
  replace (ROWS - 1 - (ROWS - S row)) with row by dims_lia.
  exists (setPiece b row col p). split_and!; [done|done|eauto using addMove_preserves_gravity|].
  rewrite (column_count_threshold _ col row); [dims_lia|].
  intros r Hr. destruct (decide (r = row)) as [->|Hne].
  - rewrite getPiece_setPiece_same by done. split; [lia|done].
  - rewrite getPiece_setPiece_other by congruence. rewrite Hcol by done. lia.
Qed.

Definition gravity_witness_board : board :=
  setPiece (setPiece empty_board 5 3 PIECE_A) 4 3 PIECE_B.

Lemma addMove_gravity_witness :
  exists b', addMove gravity_witness_board 3 PIECE_A = Some (3, b') /\
    gravity_ok b' = true /\ column_count b' 3 = 3.
Proof.
  destruct (addMove_gravity gravity_witness_board 3 PIECE_A) as (b' & H1 & _ & H2 & H3);
    [vm_compute; split; [reflexivity|repeat constructor]|reflexivity|vm_compute; lia
    |discriminate|vm_compute; lia|].
  exists b'. split_and!; [exact H1|exact H2|exact H3].
Defined.

(** C13: Full columns.  Under gravity, [addMove] fails (the C++ loop
    falls off the end of [addMove], undefined behaviour) exactly on the
    columns [isColumnOpen] reports closed. *)
Theorem addMove_full_column b col p :
  gravity_ok b = true -> col < COLUMNS ->
  (addMove b col p = None <-> isColumnOpen b col = false).
Proof.
  intros Hg Hc. split; [|by apply addMove_None_of_closed].
  unfold addMove, isColumnOpen. rewrite addMove_from_None, bool_decide_eq_false.
  intros H. apply H. unfold ROWS; lia.
Qed.

Definition full_column_board : board :=
  fold_left (fun b r => setPiece b r 0 PIECE_A) (seq 0 ROWS) empty_board.

Lemma addMove_full_column_witness :
  addMove full_column_board 0 PIECE_B = None.
Proof.
  apply (addMove_full_column full_column_board 0 PIECE_B);
    [vm_compute; reflexivity|unfold COLUMNS; lia|vm_compute; reflexivity].
Defined.

(** C19: Reset.  On the 6 x 7 array, [reset] (and so the constructor
    [Board()]) yields the all-empty board: every cell then reads
    [PIECE_EMPTY]. *)
Theorem reset_empty b :
  wf b -> reset b = empty_board /\ forall r c, getPiece (reset b) r c = PIECE_EMPTY.
Proof.
  intros Hwf. pose proof (reset_is_empty b Hwf) as Hr.
  split; [done|]. intros r c. rewrite Hr. apply getPiece_empty_board.
Qed.

Lemma reset_empty_witness :
  reset full_column_board = empty_board.
Proof.
  apply (reset_empty full_column_board). vm_compute. split; [reflexivity|repeat constructor].
Defined.

(** C4: Not finished.  [checkWin] reports [WIN_STATE_NOT_FINISHED]
    exactly when neither player has four in a row (in any orientation)
    and some cell of the top row is empty. *)
Theorem checkWin_not_finished_iff b :
  checkWin b = WIN_STATE_NOT_FINISHED <->
  ~ four_in_a_row b PIECE_A /\ ~ four_in_a_row b PIECE_B /\
  exists c, c < COLUMNS /\ getPiece b 0 c = PIECE_EMPTY.
Proof.
  destruct (checkWin_scan_winner b) as [[-> HA]|[[-> HB]|(-> & HA & HB)]];
    [split; [discriminate|naive_solver]..|].
  destruct (checkWin_top_cases b) as [[-> Hc]|[-> Hc]]; [naive_solver|].
  split; [discriminate|]. intros (_ & _ & c & Hlt & He). exfalso. by apply (Hc c).
Qed.

(** C17: Draw.  [checkWin] reports [WIN_STATE_DRAW] exactly when neither
    player has four in a row and the whole top row is occupied. *)
Theorem checkWin_draw_iff b :
  checkWin b = WIN_STATE_DRAW <->
  ~ four_in_a_row b PIECE_A /\ ~ four_in_a_row b PIECE_B /\
  forall c, c < COLUMNS -> getPiece b 0 c <> PIECE_EMPTY.
Proof.
  destruct (checkWin_scan_winner b) as [[-> HA]|[[-> HB]|(-> & HA & HB)]];
    [split; [discriminate|naive_solver]..|].
  destruct (checkWin_top_cases b) as [[-> (c & Hc & He)]|[-> Hc]]; [|naive_solver].
  split; [discriminate|]. intros (_ & _ & Hfull). exfalso. by apply (Hfull c).
Qed.

(** C15: Soundness of a reported win.  When [checkWin] reports the win
    state of a piece, that piece has four in a row on the board. *)
Theorem checkWin_winner_sound b p :
  p <> PIECE_EMPTY -> checkWin b = pieceToWinState p -> four_in_a_row b p.
Proof.
  intros Hp. destruct (checkWin_scan_winner b) as [[-> HA]|[[-> HB]|(-> & _ & _)]];
    destruct p; simpl; try done.
  all: destruct (checkWin_top_cases b) as [[-> _]|[-> _]]; discriminate.
Qed.

Definition bottom_four : board :=
  fold_left (fun b c => setPiece b 5 c PIECE_A) [0; 1; 2; 3] empty_board.

Lemma checkWin_winner_sound_witness : four_in_a_row bottom_four PIECE_A.
Proof.
  apply (checkWin_winner_sound bottom_four PIECE_A); [discriminate|vm_compute; reflexivity].
Defined.

(** C16: A single winner is reported.  If one piece has four in a row
    and the other does not, [checkWin] reports the first piece's win
    state (the spec's example: row 5, columns 0-3 all [PIECE_A] gives
    [WIN_STATE_A]). *)
Theorem checkWin_single_winner b p q :
  p <> PIECE_EMPTY -> q <> PIECE_EMPTY -> p <> q ->
  four_in_a_row b p -> ~ four_in_a_row b q -> checkWin b = pieceToWinState p.
Proof.
  intros Hp Hq Hpq Hfp Hfq.
  destruct (checkWin_scan_winner b) as [[-> HA]|[[-> HB]|(_ & HA & HB)]];
    destruct p, q; simpl; try done; exfalso; auto.
Qed.

Lemma checkWin_single_winner_witness :
  checkWin bottom_four = WIN_STATE_A.
Proof.
  apply (checkWin_single_winner bottom_four PIECE_A PIECE_B);
    [discriminate|discriminate|discriminate|apply four_in_a_rowb_spec; vm_compute; reflexivity|].
  rewrite <- four_in_a_rowb_spec. vm_compute. discriminate.
Defined.

(** C18: Scan order.  [checkWin] returns the winner of the first complete
    window in the order of its loops (every vertical window, columns
    outer; then every horizontal one, rows outer; then the diagonals,
    the down-right window before the up-right one at each anchor), and
    the top-row verdict when there is none: a board where both players
    have four reports the player whose window is scanned first. *)
Theorem checkWin_scan_order b :
  checkWin b = default (checkWin_top b) (first_some (window_winner b) scan_order).
Proof.
  unfold checkWin, checkWin_vertical, checkWin_horizontal, checkWin_diagonal, scan_order.
  rewrite !first_some_app, !first_some_flat_map.
  setoid_rewrite first_some_map. setoid_rewrite first_some_flat_map.
  assert (Hd : forall r c, first_some (window_winner b) [diagonal_window r c; antidiagonal_window r c]
                           = option_orelse (window_winner b (diagonal_window r c))
                                           (window_winner b (antidiagonal_window r c))).
  { intros r c. simpl. by destruct (window_winner b (diagonal_window r c)),
                                    (window_winner b (antidiagonal_window r c)). }
  setoid_rewrite Hd. by repeat case_match.
Qed.

(** C33: The two conversions are inverse.  [pieceToWinState] followed by
    [winStateToPiece] gives back every piece, [PIECE_EMPTY] included, and
    [winStateToPiece] followed by [pieceToWinState] gives back every state
    but [WIN_STATE_DRAW], which has no piece and comes back as
    [WIN_STATE_NOT_FINISHED]. *)
Theorem winState_piece_roundtrip p w :
  winStateToPiece (pieceToWinState p) = p /\
  (w <> WIN_STATE_DRAW -> pieceToWinState (winStateToPiece w) = w) /\
  pieceToWinState (winStateToPiece WIN_STATE_DRAW) = WIN_STATE_NOT_FINISHED.
Proof. destruct p, w; naive_solver. Qed.

Lemma winState_piece_roundtrip_witness :
  pieceToWinState (winStateToPiece WIN_STATE_B) = WIN_STATE_B.
Proof. apply (winState_piece_roundtrip PIECE_A WIN_STATE_B). discriminate. Defined.

End Board.
