(* ===== verification/Interface.v ===== *)
(** * What the AI needs of the board

    [class AI] holds a [Board*] and calls five of its methods.  The class
    [BoardAPI] names those operations and [BoardLaws] states the three
    facts the search relies on; the AI files are written and proved
    against these classes, and the instances below discharge them for the
    model of [board.h]. *)

From S2P Require Import Prelude Board.
Import Board (piece(..), win_state(..), ROWS, COLUMNS).

Class BoardAPI (B : Type) := {
  getPiece : B -> nat -> nat -> piece;
  setPiece : B -> nat -> nat -> piece -> B;
  addMove : B -> nat -> piece -> option (nat * B);
  checkWin : B -> win_state;
  isColumnOpen : B -> nat -> bool
}.

Class BoardLaws (B : Type) `{BoardAPI B} := {
  (** a drop in an open column succeeds *)
  addMove_open b col p :
    isColumnOpen b col = true -> exists row b', addMove b col p = Some (row, b');
  (** [setPiece(row, col, PIECE_EMPTY)] after a drop restores the board *)
  addMove_undo b col p row b' :
    addMove b col p = Some (row, b') -> setPiece b' row col PIECE_EMPTY = b;
  (** an unfinished game has an open column *)
  not_finished_open b :
    checkWin b = WIN_STATE_NOT_FINISHED ->
    exists col, col < COLUMNS /\ isColumnOpen b col = true
}.

#[export] Instance board_api : BoardAPI Board.board := {|
  getPiece := Board.getPiece;
  setPiece := Board.setPiece;
  addMove := Board.addMove;
  checkWin := Board.checkWin;
  isColumnOpen := Board.isColumnOpen
|}.

#[export] Instance board_laws : BoardLaws Board.board.
Proof.
  split; simpl.
  - apply Board.addMove_Some_of_open.
  - apply Board.addMove_undo.
  - intros b Hnf.
    destruct (Board.checkWin_scan_winner b) as [[Hw _]|[[Hw _]|(Hw & _ & _)]];
      rewrite Hnf in Hw; try discriminate.
    destruct (Board.checkWin_top_cases b) as [[_ (c & Hc & He)]|[Hd _]];
      [|congruence].
    exists c. split; [done|]. by apply bool_decide_eq_true_2.
Qed.
