(* ===== verification/Text.v ===== *)
(** * [std::to_string] and [atoi], the text conversions of [main.cpp]

    The controller names each column button by [std::to_string(i)] and
    recovers the column of a clicked button with [atoi] on its [id]; the
    log lines print rows, columns and pieces with [std::to_string].  Both
    are library functions: [to_string] is stdpp's decimal [pretty] on
    [Z], [atoi] follows the C standard (leading white space, an optional
    sign, the longest run of decimal digits, [0] when there is none).
    [atoi_to_string] is their round trip. *)

From S2P Require Import Prelude.
From stdpp Require Import strings pretty.
From Stdlib Require Import Ascii.

(** [std::to_string(int)]. *)
Definition to_string (n : Z) : string := pretty n.

(** The digit loop of [atoi]: [acc] is the value of the digits read. *)
Fixpoint atoi_digits (acc : Z) (s : string) : Z :=
  match s with
  | EmptyString => acc
  | String c s' =>
      match Ascii.is_nat c with
      | Some d => atoi_digits (10 * acc + Z.of_nat d) s'
      | None => acc
      end
  end.

(** [atoi(const char* )]. *)
Fixpoint atoi (s : string) : Z :=
  match s with
  | EmptyString => 0
  | String c s' =>
      if Ascii.is_space c then atoi s'
      else if decide (c = "-"%char) then - atoi_digits 0 s'
      else if decide (c = "+"%char) then atoi_digits 0 s'
      else atoi_digits 0 s
  end.

(** ** Lemmas *)

Lemma is_nat_pretty_N_char x :
  (x < 10)%N -> Ascii.is_nat (pretty_N_char x) = Some (N.to_nat x).
Proof.
  intros Hx. rewrite <- (N2Nat.id x) in *. assert (Hn : N.to_nat x < 10) by lia.
  generalize (N.to_nat x) Hn. clear. intros n Hn. rewrite Nat2N.id.
  do 10 (destruct n as [|n]; [reflexivity|]). lia.
Qed.

(** Reading the digits [pretty_N_go x] prepends to [s] adds [x] to the
    value read. *)
Lemma atoi_digits_pretty_N_go x s :
  atoi_digits 0 (pretty_N_go x s) = atoi_digits (Z.of_N x) s.
Proof.
  revert s. induction (N.lt_wf_0 x) as [x _ IH]; intros s.
  destruct (decide (x = 0%N)) as [->|Hx]; [by rewrite pretty_N_go_0|].
  rewrite pretty_N_go_step by lia. rewrite IH by (apply N.div_lt; lia).
  cbn [atoi_digits]. rewrite is_nat_pretty_N_char by (apply N.mod_lt; lia).
  f_equal. rewrite N_nat_Z. pose proof (N.div_mod x 10 ltac:(lia)). lia.
Qed.

(** The text of a positive number starts with a digit. *)
Lemma pretty_N_go_digit x s :
  (0 < x)%N -> exists c s' d, pretty_N_go x s = String c s' /\ Ascii.is_nat c = Some d.
Proof.
  revert s. induction (N.lt_wf_0 x) as [x _ IH]; intros s Hx.
  rewrite pretty_N_go_step by done.
  destruct (decide (x `div` 10 = 0)%N) as [Hq|Hq].
  - rewrite Hq, pretty_N_go_0. do 3 eexists. split; [done|].
    apply is_nat_pretty_N_char, N.mod_lt. lia.
  - apply IH; [apply N.div_lt; lia|]. destruct (x `div` 10)%N; [congruence|lia].
Qed.

Lemma atoi_digit_start c s d :
  Ascii.is_nat c = Some d -> atoi (String c s) = atoi_digits 0 (String c s).
Proof. intros H. destruct c as [[][][][][][][][]]; try discriminate H; reflexivity. Qed.

Lemma atoi_pretty_N x : atoi (pretty x) = Z.of_N x.
Proof.
  unfold pretty, pretty_N. case_decide as Hx; [by subst|].
  destruct (pretty_N_go_digit x "" ltac:(lia)) as (c & s' & d & Hs & Hd).
  rewrite Hs, (atoi_digit_start c s' d Hd), <- Hs, atoi_digits_pretty_N_go. done.
Qed.

Lemma atoi_minus s : atoi (String "-" s) = (- atoi_digits 0 s)%Z.
Proof. reflexivity. Qed.

(** [atoi] reads back every number [std::to_string] prints. *)
Lemma atoi_to_string n : atoi (to_string n) = n.
Proof.
  destruct n as [|p|p]; [reflexivity|exact (atoi_pretty_N (Npos p))|].
  change (to_string (Zneg p)) with (String "-" (pretty (Npos p))).
  rewrite atoi_minus. unfold pretty at 1, pretty_N. rewrite decide_False by done.
  by rewrite atoi_digits_pretty_N_go.
Qed.
