(* ===== verification/Dom.v ===== *)
(** * The image grid of the page

    [main.cpp] keeps the [<img>] element of each cell in the global
    [HTMLElement* images[ROWS][COLUMNS]] and shows a piece through the
    element's [class] attribute.  An element is modelled by its [class]
    attribute, a null pointer by [None]; the array is a list of rows as in
    [Board].  A grid that is a table of a function of [(row, col)] is
    [ogrid f]: writes into it are pointwise updates of [f], which is how
    the loops of [createTable] and [updateBoard] are proved. *)

From S2P Require Import Prelude Board.
From stdpp Require Import strings.
Import Board (piece(..), ROWS, COLUMNS).

Module Dom.

Abbreviation images := (list (list (option string))).

(** The zero-initialised global array: every pointer is null. *)
Definition null_images : images := replicate ROWS (replicate COLUMNS None).

(** [images[r][c]]: [None] out of the array, [Some None] for a null
    pointer. *)
Definition image_at (imgs : images) (r c : nat) : option (option string) :=
  imgs !! r ≫= (.!! c).

(** [images[r][c] = element]. *)
Definition setImage (imgs : images) (r c : nat) (v : option string) : images :=
  alter (fun row => <[c := v]> row) r imgs.

(** The grid whose cell [(r, c)] is [f r c]. *)
Definition ogrid (f : nat -> nat -> option string) : images :=
  (fun r => (fun c => f r c) <$> seq 0 COLUMNS) <$> seq 0 ROWS.

Definition update (f : nat -> nat -> option string) (r c : nat) (v : option string) :=
  fun r' c' => if decide (r' = r /\ c' = c) then v else f r' c'.

(** A grid of [ROWS x COLUMNS] elements none of which is null. *)
Definition live (imgs : images) : Prop :=
  exists f, imgs = ogrid f /\ forall r c, r < ROWS -> c < COLUMNS -> is_Some (f r c).

(** ** Lemmas *)

Lemma null_images_ogrid : null_images = ogrid (fun _ _ => None).
Proof. reflexivity. Qed.

Lemma ogrid_row f r :
  ogrid f !! r = if decide (r < ROWS) then Some ((fun c => f r c) <$> seq 0 COLUMNS) else None.
Proof. exact (lookup_fmap_seq0 _ _ _). Qed.

Lemma image_at_ogrid f r c :
  r < ROWS -> c < COLUMNS -> image_at (ogrid f) r c = Some (f r c).
Proof.
  intros Hr Hc. unfold image_at. rewrite ogrid_row, decide_True by done. cbn [mbind option_bind].
  by rewrite (lookup_fmap_seq0 (A := option string)), decide_True.
Qed.

Lemma setImage_ogrid f r c v :
  r < ROWS -> c < COLUMNS -> setImage (ogrid f) r c v = ogrid (update f r c v).
Proof.
  intros Hr Hc. apply list_eq. intros i. unfold setImage.
  rewrite list_lookup_alter, !ogrid_row. unfold update.
  destruct (decide (r = i)) as [<-|Hne].
  - rewrite !decide_True by done. cbn [fmap option_fmap option_map]. f_equal.
    apply list_eq. intros j.
    rewrite list_lookup_insert, !(lookup_fmap_seq0 (A := option string)), length_fmap, length_seq.
    repeat case_decide; naive_solver lia.
  - case_decide; [|done]. f_equal. apply list_fmap_ext. intros j c' _.
    rewrite decide_False; naive_solver.
Qed.

Lemma ogrid_ext f g :
  (forall r c, r < ROWS -> c < COLUMNS -> f r c = g r c) -> ogrid f = ogrid g.
Proof.
  intros Hfg. apply list_fmap_ext. intros r r' Hr%lookup_seq.
  apply list_fmap_ext. intros c c' Hc%lookup_seq. apply Hfg; lia.
Qed.

(** One row of writes [images[r][c] = v c], [c] in [cs]. *)
Lemma fold_setImage_row f r (v : nat -> option string) cs :
  r < ROWS -> Forall (fun c => c < COLUMNS) cs ->
  fold_left (fun imgs c => setImage imgs r c (v c)) cs (ogrid f)
  = ogrid (fun r' c' => if decide (r' = r /\ c' ∈ cs) then v c' else f r' c').
Proof.
  intros Hr Hcs. revert f. induction Hcs as [|c cs Hc Hcs IH]; intros f; cbn [fold_left].
  - apply ogrid_ext. intros r' c' _ _. rewrite decide_False; [done|set_solver].
  - rewrite setImage_ogrid, IH by done. apply ogrid_ext. intros r' c' _ _.
    unfold update. destruct (decide (r' = r)), (decide (c' = c)), (decide (c' ∈ cs));
      repeat case_decide; set_solver.
Qed.

(** The nested loops writing [images[r][c] = v r c] for [r] in [rs] and
    every column. *)
Lemma fold_setImage_rows f (v : nat -> nat -> option string) rs :
  Forall (fun r => r < ROWS) rs ->
  fold_left (fun imgs r => fold_left (fun imgs c => setImage imgs r c (v r c))
                             (seq 0 COLUMNS) imgs) rs (ogrid f)
  = ogrid (fun r' c' => if decide (r' ∈ rs) then v r' c' else f r' c').
Proof.
  intros Hrs. revert f. induction Hrs as [|r rs Hr Hrs IH]; intros f; cbn [fold_left].
  - apply ogrid_ext. intros r' c' _ _. rewrite decide_False; [done|set_solver].
  - rewrite fold_setImage_row, IH by (done || apply Forall_seq; lia).
    apply ogrid_ext. intros r' c' _ Hc'.
    assert (c' ∈ seq 0 COLUMNS) by (apply elem_of_seq; lia).
    destruct (decide (r' = r)), (decide (r' ∈ rs)); repeat case_decide; set_solver.
Qed.

Lemma live_image_at imgs r c :
  live imgs -> r < ROWS -> c < COLUMNS -> exists s, image_at imgs r c = Some (Some s).
Proof.
  intros (f & -> & Hf) Hr Hc. destruct (Hf r c Hr Hc) as [s Hs].
  exists s. by rewrite image_at_ogrid, Hs.
Qed.

Lemma setImage_live imgs r c s :
  live imgs -> r < ROWS -> c < COLUMNS -> live (setImage imgs r c (Some s)).
Proof.
  intros (f & -> & Hf) Hr Hc. rewrite setImage_ogrid by done.
  eexists. split; [done|]. intros r' c' Hr' Hc'. unfold update. case_decide; auto.
Qed.

Lemma fold_setImage_live imgs r (v : nat -> string) cs :
  live imgs -> r < ROWS -> Forall (fun c => c < COLUMNS) cs ->
  live (fold_left (fun imgs c => setImage imgs r c (Some (v c))) cs imgs).
Proof.
  intros Hl Hr Hcs. revert imgs Hl. induction Hcs as [|c cs Hc Hcs IH]; intros imgs Hl;
    cbn [fold_left]; [done|]. by apply IH, setImage_live.
Qed.

Lemma ogrid_live (v : nat -> nat -> string) : live (ogrid (fun r c => Some (v r c))).
Proof. eexists. split; [done|]. intros r c _ _. by eexists. Qed.

End Dom.
