(* ===== verification/Heuristic.v ===== *)
(** * The static evaluation of [src/ai.h]

    [AI::getBoardHeuristicValue] over any board meeting [BoardAPI]: a
    terminal position scores [1000 - (startingDepth - depth)] for the
    computer, [-1000 + (startingDepth - depth)] for the player, [0] for a
    draw; any other position scores [+3]/[-3] per length-4 window that
    reads three pieces then an empty cell, or an empty cell then three
    pieces.  The lemmas flatten the loop nests into one scan of the 69
    windows and bound the static score, and every running total of it,
    within the 32-bit range. *)

From S2P Require Import Prelude Board Interface.
Import Board (piece(..), win_state(..), ROWS, COLUMNS, pieceToWinState,
              vertical_window, horizontal_window, diagonal_window,
              antidiagonal_window).

(** The configuration of [class AI] (ai.h 9-22): the piece ids of the
    computer and of its opponent, and [startingDepth]. *)
Record AI := mkAI { computerPiece : piece; playerPiece : piece }.

Definition startingDepth : nat := 6.

(** The two pieces are distinct real pieces, as in [main.cpp]'s
    [AI(&board, Board::PIECE_B, Board::PIECE_A)]. *)
Definition ai_wf (ai : AI) : Prop :=
  computerPiece ai <> PIECE_EMPTY /\ playerPiece ai <> PIECE_EMPTY /\
  computerPiece ai <> playerPiece ai.

(** The AI of [main.cpp] (line 28): the computer plays [PIECE_B] (black)
    against the human's [PIECE_A] (red). *)
Definition main_ai : AI := mkAI PIECE_B PIECE_A.

#[export] Instance ai_wf_dec ai : Decision (ai_wf ai).
Proof. unfold ai_wf. apply _. Defined.

Section Heuristic.
Context {B : Type} `{BoardAPI B}.

Definition cell_is (b : B) (cell : nat * nat) (p : piece) : bool :=
  bool_decide (getPiece b cell.1 cell.2 = p).

(** The four [if]s of one window, in source order, on [points]. *)
Definition window_points (ai : AI) (b : B) (w : list (nat * nat)) (points : Z) : Z :=
  match w with
  | [x0; x1; x2; x3] =>
      let pl := playerPiece ai in
      let cp := computerPiece ai in
      let points :=
        if cell_is b x0 pl && cell_is b x1 pl && cell_is b x2 pl && cell_is b x3 PIECE_EMPTY
        then (points - 3)%Z else points in
      let points :=
        if cell_is b x0 PIECE_EMPTY && cell_is b x1 pl && cell_is b x2 pl && cell_is b x3 pl
        then (points - 3)%Z else points in
      let points :=
        if cell_is b x0 cp && cell_is b x1 cp && cell_is b x2 cp && cell_is b x3 PIECE_EMPTY
        then (points + 3)%Z else points in
      if cell_is b x0 PIECE_EMPTY && cell_is b x1 cp && cell_is b x2 cp && cell_is b x3 cp
      then (points + 3)%Z else points
  | _ => points
  end.

(** "Check vertical" (ai.h 104-118): columns outer, rows inner. *)
Definition heuristic_vertical (ai : AI) (b : B) (points : Z) : Z :=
  fold_left (fun points c =>
    fold_left (fun points r => window_points ai b (vertical_window r c) points)
      (seq 0 (ROWS - 3)) points)
    (seq 0 COLUMNS) points.

(** "Check horizontal" (ai.h 120-134): rows outer, columns inner. *)
Definition heuristic_horizontal (ai : AI) (b : B) (points : Z) : Z :=
  fold_left (fun points r =>
    fold_left (fun points c => window_points ai b (horizontal_window r c) points)
      (seq 0 (COLUMNS - 3)) points)
    (seq 0 ROWS) points.

(** "Check diagonal" (ai.h 136-159): both diagonals at each anchor. *)
Definition heuristic_diagonal (ai : AI) (b : B) (points : Z) : Z :=
  fold_left (fun points c =>
    fold_left (fun points r =>
      window_points ai b (antidiagonal_window r c)
        (window_points ai b (diagonal_window r c) points))
      (seq 0 (ROWS - 3)) points)
    (seq 0 (COLUMNS - 3)) points.

(** The positional score of a non-terminal board. *)
Definition static_score (ai : AI) (b : B) : Z :=
  heuristic_diagonal ai b (heuristic_horizontal ai b (heuristic_vertical ai b 0)).

Definition getBoardHeuristicValue (ai : AI) (b : B) (depth : nat) : Z :=
  let winState := checkWin b in
  if decide (winState = pieceToWinState (computerPiece ai))
  then (1000 - (Z.of_nat startingDepth - Z.of_nat depth))%Z
  else if decide (winState = pieceToWinState (playerPiece ai))
  then (-1000 + (Z.of_nat startingDepth - Z.of_nat depth))%Z
  else if decide (winState = WIN_STATE_DRAW) then 0%Z
  else static_score ai b.

(** The pieces of a window, in the order of its cells. *)
Definition window_cells (b : B) (w : list (nat * nat)) : list piece :=
  map (fun x => getPiece b x.1 x.2) w.

(** The spec's scoring pattern: exactly three pieces [p] and one empty
    cell, wherever the empty cell is. *)
Definition three_and_empty (p : piece) (ps : list piece) : bool :=
  bool_decide (count_occ (fun x y : piece => decide (x = y)) ps p = 3 /\ count_occ (fun x y : piece => decide (x = y)) ps PIECE_EMPTY = 1).

(** The empty cell is the first or the last of the window. *)
Definition empty_at_end (ps : list piece) : bool :=
  bool_decide (head ps = Some PIECE_EMPTY \/ last ps = Some PIECE_EMPTY).

End Heuristic.

(** ** Bounds on the static score *)

Section Bounds.
Context {B : Type} `{BoardAPI B}.

Lemma window_points_delta ai (b : B) w points :
  (Z.abs (window_points ai b w points - points) <= 12)%Z.
Proof.
  unfold window_points.
  destruct w as [|x0 [|x1 [|x2 [|x3 [|]]]]]; try lia.
  repeat case_match; lia.
Qed.

(** With two distinct real pieces the four patterns of a window exclude
    each other: a window moves the score by at most 3. *)
Lemma window_points_delta_wf ai (b : B) w points :
  ai_wf ai -> (Z.abs (window_points ai b w points - points) <= 3)%Z.
Proof.
  intros (Hc & Hp & Hcp). unfold window_points, cell_is.
  destruct w as [|x0 [|x1 [|x2 [|x3 [|]]]]]; try lia.
  destruct (computerPiece ai), (playerPiece ai); try congruence;
    destruct (getPiece b x0.1 x0.2), (getPiece b x1.1 x1.2),
             (getPiece b x2.1 x2.2), (getPiece b x3.1 x3.2); simpl; lia.
Qed.

(** The three loop nests of the static score scan the 69 windows in the
    order [checkWin] scans them: one fold over [Board.scan_order]. *)
Lemma static_score_scan ai (b : B) :
  static_score ai b = fold_left (fun points w => window_points ai b w points) Board.scan_order 0%Z.
Proof.
  unfold static_score, heuristic_diagonal, heuristic_horizontal, heuristic_vertical,
    Board.scan_order.
  by autorewrite with c4_rw.
Qed.

Lemma scan_order_length : length Board.scan_order = 69.
Proof. reflexivity. Qed.

(** The static score moves by at most [k] per window over its 69 windows
    (21 vertical, 24 horizontal, 12 + 12 diagonal). *)
Lemma static_score_delta ai (b : B) k :
  (forall w points, Z.abs (window_points ai b w points - points) <= k)%Z ->
  (Z.abs (static_score ai b) <= 69 * k)%Z.
Proof.
  intros Hw. rewrite static_score_scan.
  pose proof (fold_left_delta _ k Board.scan_order 0%Z (fun acc w => Hw w acc)) as Hd.
  rewrite scan_order_length in Hd. lia.
Qed.

Lemma static_score_bound ai (b : B) : (Z.abs (static_score ai b) <= 828)%Z.
Proof.
  pose proof (static_score_delta ai b 12 (window_points_delta ai b)). lia.
Qed.

(** The score of a win for the computer found with [depth] plies left. *)
Definition win_score (depth : nat) : Z :=
  (1000 - (Z.of_nat startingDepth - Z.of_nat depth))%Z.

(** The heuristic never exceeds the win score of its depth, and reaches it
    only on a board the computer has won. *)
Lemma heuristic_le_win ai (b : B) depth :
  (getBoardHeuristicValue ai b depth <= win_score depth)%Z /\
  (getBoardHeuristicValue ai b depth = win_score depth ->
   checkWin b = pieceToWinState (computerPiece ai)).
Proof.
  unfold getBoardHeuristicValue, win_score, startingDepth.
  pose proof (static_score_bound ai b).
  repeat case_decide; split; try done; intros; lia.
Qed.

Lemma heuristic_ge ai (b : B) depth :
  depth <= startingDepth -> (-1000 <= getBoardHeuristicValue ai b depth)%Z.
Proof.
  unfold getBoardHeuristicValue, startingDepth. intros Hd.
  pose proof (static_score_bound ai b).
  repeat case_decide; lia.
Qed.

End Bounds.

(** ** Properties of the evaluation *)

Section Properties.
Context {B : Type} `{BoardAPI B}.

Lemma pieceToWinState_not_finished p :
  p <> PIECE_EMPTY -> pieceToWinState p <> WIN_STATE_NOT_FINISHED.
Proof. by destruct p. Qed.

Lemma pieceToWinState_inj p q :
  p <> PIECE_EMPTY -> p <> q -> pieceToWinState p <> pieceToWinState q.
Proof. by destruct p, q. Qed.

(** C5: Forced outcomes dominate positional play.  With two distinct real
    pieces, a board the computer has won scores above every unfinished
    board, and a board the player has won scores below it, whatever the
    depths: wins score at least [994], losses at most [-994], while the
    static score stays within [828] (proved in [static_score_bound]). *)
Theorem terminal_dominates_static ai (b_win b_loss b : B) d_win d_loss d :
  ai_wf ai ->
  checkWin b_win = pieceToWinState (computerPiece ai) ->
  checkWin b_loss = pieceToWinState (playerPiece ai) ->
  checkWin b = WIN_STATE_NOT_FINISHED ->
  (getBoardHeuristicValue ai b_loss d_loss < getBoardHeuristicValue ai b d <
   getBoardHeuristicValue ai b_win d_win)%Z.
Proof.
  intros (Hc & Hp & Hcp) Hwin Hloss Hnf.
  pose proof (pieceToWinState_not_finished _ Hc).
  pose proof (pieceToWinState_not_finished _ Hp).
  pose proof (pieceToWinState_inj _ _ Hc Hcp).
  pose proof (static_score_bound ai b).
  unfold getBoardHeuristicValue, startingDepth.
  rewrite Hwin, Hloss, Hnf, (decide_True _ _ eq_refl).
  rewrite decide_False by congruence. rewrite (decide_True _ _ eq_refl).
  rewrite !decide_False by congruence. lia.
Qed.

(** C6: Static bound.  With two distinct real pieces each of the 69
    windows adds at most one [+3] or [-3], so the static score of any
    board lies within [3 * 69 = 207] in absolute value. *)
Theorem static_score_bound_wf ai (b : B) :
  ai_wf ai -> (Z.abs (static_score ai b) <= 207)%Z.
Proof.
  intros Hwf.
  pose proof (static_score_delta ai b 3 (fun w p => window_points_delta_wf ai b w p Hwf)).
  lia.
Qed.

(** C34: No signed overflow in the static evaluation.  The three loop
    nests of [getBoardHeuristicValue] visit the 69 windows in the order of
    [Board.scan_order], so the value of [points] after [n] windows is the
    fold over the first [n] of them.  With two distinct real pieces, that
    running total lies within
    [3 * min n 69 <= 207] in absolute value; with the margin of the next
    [points -= 3] or [points += 3], every value the C++ [int points]
    takes is within the 32-bit range, so the mathematical integers of
    the model compute what the [int] arithmetic does. *)
Theorem heuristic_points_in_int_range ai (b : B) n :
  ai_wf ai ->
  static_score ai b = fold_left (fun points w => window_points ai b w points) Board.scan_order 0%Z /\
  (Z.abs (fold_left (fun points w => window_points ai b w points)
            (take n Board.scan_order) 0) <= 3 * Z.of_nat (min n 69))%Z /\
  (INT_MIN + 3 <= fold_left (fun points w => window_points ai b w points)
                    (take n Board.scan_order) 0 <= INT_MAX - 3)%Z.
Proof.
  intros Hwf.
  pose proof (fold_left_take_delta _ 3 Board.scan_order 0%Z n
                (fun acc w => window_points_delta_wf ai b w acc Hwf)) as Hd.
  rewrite scan_order_length in Hd. split; [apply static_score_scan|].
  unfold INT_MIN, INT_MAX. split; lia.
Qed.

(** Evaluate the closed boolean tests of a window once its cells are
    known, leaving the arithmetic on [points] to [lia]. *)
Ltac eval_window_tests :=
  repeat match goal with
  | |- context [bool_decide ?P] =>
      let v := eval vm_compute in (bool_decide P) in change (bool_decide P) with v
  | |- context [three_and_empty ?p ?ps] =>
      let v := eval vm_compute in (three_and_empty p ps) in change (three_and_empty p ps) with v
  | |- context [empty_at_end ?ps] =>
      let v := eval vm_compute in (empty_at_end ps) in change (empty_at_end ps) with v
  end; cbn [andb].

(** C14: What one window scores.  With two distinct real pieces, the four
    [if]s of a window add [+3] when it holds three of the computer's pieces
    and one empty cell, [-3] for three of the player's and one empty cell,
    but only when the empty cell is the first or the last of the window,
    and nothing otherwise.  The spec scores every window with three pieces
    and one empty cell, wherever the empty cell lies: the code never scores
    [X _ X X] or [X X _ X]. *)
Theorem window_points_scores ai (b : B) w points :
  ai_wf ai -> length w = 4 ->
  window_points ai b w points =
  (points
   + (if three_and_empty (computerPiece ai) (window_cells b w)
         && empty_at_end (window_cells b w) then 3 else 0)
   - (if three_and_empty (playerPiece ai) (window_cells b w)
         && empty_at_end (window_cells b w) then 3 else 0))%Z.
Proof.
  intros (Hc & Hp & Hcp) Hlen.
  destruct w as [|x0 [|x1 [|x2 [|x3 [|]]]]]; try discriminate.
  unfold window_points, window_cells, cell_is; cbn [map].
  destruct (computerPiece ai), (playerPiece ai); try congruence;
    destruct (getPiece b x0.1 x0.2), (getPiece b x1.1 x1.2),
             (getPiece b x2.1 x2.2), (getPiece b x3.1 x3.2); eval_window_tests; lia.
Qed.

End Properties.

(** Boards for the examples: four in the bottom row for each piece, and
    the computer's three pieces with a gap. *)
Definition four_of (p : piece) : Board.board :=
  fold_left (fun b c => Board.setPiece b 5 c p) [0; 1; 2; 3] Board.empty_board.

Definition split_three : Board.board :=
  fold_left (fun b c => Board.setPiece b 5 c PIECE_B) [0; 2; 3] Board.empty_board.

Lemma terminal_dominates_static_witness :
  (getBoardHeuristicValue main_ai (four_of PIECE_A) 0 <
   getBoardHeuristicValue main_ai Board.empty_board 0 <
   getBoardHeuristicValue main_ai (four_of PIECE_B) 6)%Z.
Proof.
  apply terminal_dominates_static;
    [split_and!; discriminate|vm_compute; reflexivity..].
Defined.

Lemma static_score_bound_wf_witness :
  (Z.abs (static_score main_ai split_three) <= 207)%Z.
Proof. apply static_score_bound_wf. split_and!; discriminate. Defined.

Lemma heuristic_points_in_int_range_witness :
  static_score main_ai split_three =
    fold_left (fun points w => window_points main_ai split_three w points) Board.scan_order 0%Z /\
  (Z.abs (fold_left (fun points w => window_points main_ai split_three w points)
            (take 30 Board.scan_order) 0) <= 3 * Z.of_nat (min 30 69))%Z /\
  (INT_MIN + 3 <= fold_left (fun points w => window_points main_ai split_three w points)
                    (take 30 Board.scan_order) 0 <= INT_MAX - 3)%Z.
Proof. apply heuristic_points_in_int_range. split_and!; discriminate. Defined.

(** The bottom row of [split_three] reads computer, empty, computer,
    computer: the spec's pattern, which the code scores [0]. *)
Lemma window_points_scores_witness :
  three_and_empty PIECE_B (window_cells split_three (Board.horizontal_window 5 0)) = true /\
  window_points main_ai split_three (Board.horizontal_window 5 0) 0 = 0%Z.
Proof.
  split; [vm_compute; reflexivity|].
  rewrite (window_points_scores main_ai split_three (Board.horizontal_window 5 0) 0);
    [vm_compute; reflexivity|split_and!; discriminate|reflexivity].
Defined.
