(* ===== verification/Search.v ===== *)
(** * [AI::minimax] and [AI::computeMove] on the shared board

    The search of [src/ai.h] as programs of the state-and-failure monad
    [st] over any board meeting [BoardAPI]: the state is the one board the
    [Board*] points to, every speculative [addMove] and every undoing
    [setPiece(row, col, PIECE_EMPTY)] is a step of the program, and a
    drop that reaches undefined behaviour fails with [None].  The
    per-column [for] loops are the fixpoints [minimax_columns] and
    [computeMove_columns]; [computeMove_log] keeps the lines
    [computeMove] prints to the console. *)

From S2P Require Import Prelude Board Interface Text Heuristic.
From stdpp Require Import strings.
Import Board (piece(..), win_state(..), ROWS, COLUMNS).

Section Search.
Context {B : Type} `{BoardAPI B}.

(** ** The board calls of [AI], as steps on the shared board *)

Definition isColumnOpenM (col : nat) : st B bool :=
  st_read (fun b => isColumnOpen b col).

Definition addMoveM (col : nat) (p : piece) : st B nat :=
  st_lift (fun b => addMove b col p).

Definition setPieceM (row col : nat) (p : piece) : st B unit :=
  st_modify (fun b => setPiece b row col p).

Definition checkWinM : st B win_state := st_read checkWin.

Definition heuristicM (ai : AI) (depth : nat) : st B Z :=
  st_read (fun b => getBoardHeuristicValue ai b depth).

(** ** [AI::minimax] (ai.h 51-90) *)

(** The loop [for(col = 0; col < COLUMNS; col++)] of a [minimax] node:
    in each open column drop [p], evaluate the child, fold its value into
    [bestValue] with [pick] ([std::max] or [std::min]) and undo the drop. *)
Fixpoint minimax_columns (cols : list nat) (p : piece) (child : st B Z)
    (pick : Z -> Z -> Z) (bestValue : Z) : st B Z :=
  match cols with
  | [] => st_ret bestValue
  | col :: cols' =>
      let! open := isColumnOpenM col in
      if open then
        let! row := addMoveM col p in
        let! v := child in
        let! _ := setPieceM row col PIECE_EMPTY in
        minimax_columns cols' p child pick (pick bestValue v)
      else minimax_columns cols' p child pick bestValue
  end.

Fixpoint minimax (ai : AI) (depth : nat) (maximizingPlayer : bool) : st B Z :=
  match depth with
  | 0 => heuristicM ai 0
  | S d =>
      let! winState := checkWinM in
      if decide (winState <> WIN_STATE_NOT_FINISHED) then heuristicM ai depth
      else if maximizingPlayer
      then minimax_columns (seq 0 COLUMNS) (computerPiece ai) (minimax ai d false)
             Z.max INT_MIN
      else minimax_columns (seq 0 COLUMNS) (playerPiece ai) (minimax ai d true)
             Z.min INT_MAX
  end.

(** ** [AI::computeMove] (ai.h 24-49) *)

(** The line [computeMove] sends to [console.log] for a column and its
    value (ai.h 36). *)
Definition value_line (col : nat) (v : Z) : string :=
  "Col " +:+ to_string (Z.of_nat col) +:+ " Value " +:+ to_string v.

(** The column loop of [computeMove]: after the speculative drop and the
    [minimax] call, the column and its value go to the console, a strictly
    greater value replaces the incumbent [(bestValue, move)], then the drop
    is undone.  [out] is the console output so far, oldest line first. *)
Fixpoint computeMove_columns (ai : AI) (cols : list nat) (bestValue : Z) (move : nat)
    (out : list string) : st B (nat * list string) :=
  match cols with
  | [] => st_ret (move, out)
  | col :: cols' =>
      let! open := isColumnOpenM col in
      if open then
        let! row := addMoveM col (computerPiece ai) in
        let! v := minimax ai startingDepth false in
        let out' := out ++ [value_line col v] in
        let '(bestValue', move') :=
          if Z.gtb v bestValue then (v, col) else (bestValue, move) in
        let! _ := setPieceM row col PIECE_EMPTY in
        computeMove_columns ai cols' bestValue' move' out'
      else computeMove_columns ai cols' bestValue move out
  end.

(** [computeMove] with its console output. *)
Definition computeMove_log (ai : AI) : st B (nat * list string) :=
  computeMove_columns ai (seq 0 COLUMNS) INT_MIN 0 [].

(** The column [computeMove] returns, its console output set aside. *)
Definition computeMove (ai : AI) : st B nat :=
  let! r := computeMove_log ai in st_ret r.1.

Lemma computeMove_of_log ai (b : B) :
  computeMove ai b =
  match computeMove_log ai b with Some ((m, _), b') => Some (m, b') | None => None end.
Proof. unfold computeMove, st_bind. by destruct (computeMove_log ai b) as [[[] ]|]. Qed.

End Search.
