(* ===== verification/SearchSpec.v ===== *)
(** * A reference minimax and the refinement of the stateful search

    [value] is minimax written the textbook way: each child is a fresh
    board ([drop]), nothing is undone.  [minimax_value] shows that the
    stateful [minimax] of [Search], which plays and undoes moves on the one
    shared board, returns [value] and leaves the board exactly as it found
    it; [computeMove_best_move] does the same for [computeMove], whose result
    is then the first column of maximal [root_value] ([best_move]) and
    [computeMove_console] gives its console output, one [value_line] per
    open column ([console_lines]).  The bounds on
    [value] show that the [INT_MIN]/[INT_MAX] seeds of the C++ loops never
    leak into a result. *)

From S2P Require Import Prelude Board Interface Text Heuristic Search.
From stdpp Require Import strings.
Import Board (piece(..), win_state(..), ROWS, COLUMNS, pieceToWinState).

Section Spec.
Context {B : Type} `{BoardAPI B}.

(** The board after dropping [p] in [col] (unchanged if the drop fails). *)
Definition drop (b : B) (col : nat) (p : piece) : B :=
  match addMove b col p with
  | Some (_, b') => b'
  | None => b
  end.

Definition open_columns (b : B) : list nat :=
  filter (fun col => isColumnOpen b col = true) (seq 0 COLUMNS).

Fixpoint value (ai : AI) (depth : nat) (maximizing : bool) (b : B) : Z :=
  match depth with
  | 0 => getBoardHeuristicValue ai b 0
  | S d =>
      if decide (checkWin b <> WIN_STATE_NOT_FINISHED)
      then getBoardHeuristicValue ai b depth
      else if maximizing
      then fold_left Z.max
             (map (fun col => value ai d false (drop b col (computerPiece ai)))
                (open_columns b)) INT_MIN
      else fold_left Z.min
             (map (fun col => value ai d true (drop b col (playerPiece ai)))
                (open_columns b)) INT_MAX
  end.

(** The value [computeMove] computes for each of its candidate columns. *)
Definition root_value (ai : AI) (b : B) (col : nat) : Z :=
  value ai startingDepth false (drop b col (computerPiece ai)).

(** One iteration of [computeMove]'s selection: a strictly greater value
    replaces the incumbent. *)
Definition select_step (acc : Z * nat) (cv : nat * Z) : Z * nat :=
  if Z.gtb cv.2 acc.1 then (cv.2, cv.1) else acc.

Definition best_move (ai : AI) (b : B) : nat :=
  (fold_left select_step (map (fun col => (col, root_value ai b col)) (open_columns b))
     (INT_MIN, 0)).2.

(** The console output of [computeMove]: one line per open column, in
    ascending order, with the column's [root_value]. *)
Definition console_lines (ai : AI) (b : B) : list string :=
  map (fun col => value_line col (root_value ai b col)) (open_columns b).

End Spec.

Section Refinement.
Context {B : Type} `{BoardAPI B} `{!BoardLaws B}.

Lemma addMove_drop (b : B) col p :
  isColumnOpen b col = true ->
  exists row, addMove b col p = Some (row, drop b col p) /\
              setPiece (drop b col p) row col PIECE_EMPTY = b.
Proof.
  intros Hopen. destruct (addMove_open b col p Hopen) as (row & b' & E).
  exists row. unfold drop. rewrite E. split; [done|]. by eapply addMove_undo.
Qed.

(** The column loop of a [minimax] node folds the children's values over
    the open columns and restores the board, provided each child does. *)
Lemma minimax_columns_spec cols p (child : st B Z) (f : nat -> Z) pick best (b : B) :
  (forall col, In col cols -> isColumnOpen b col = true ->
     child (drop b col p) = Some (f col, drop b col p)) ->
  minimax_columns cols p child pick best b =
  Some (fold_left pick (map f (filter (fun col => isColumnOpen b col = true) cols)) best, b).
Proof.
  revert best. induction cols as [|col cols IH]; intros best Hchild; [done|].
  simpl. unfold st_bind, isColumnOpenM, st_read. rewrite filter_cons.
  destruct (isColumnOpen b col) eqn:Hopen; simpl.
  - destruct (addMove_drop b col p Hopen) as (row & Hadd & Hundo).
    unfold addMoveM, st_lift. rewrite Hadd, Hchild by (auto; by left).
    unfold setPieceM, st_modify. rewrite Hundo, IH by (intros; apply Hchild; auto; by right).
    done.
  - apply IH. intros; apply Hchild; auto; by right.
Qed.

(** Undo discipline: [minimax] returns the reference value and leaves the
    shared board as it found it. *)
Lemma minimax_value ai d m (b : B) :
  minimax ai d m b = Some (value ai d m b, b).
Proof.
  revert m b. induction d as [|d IH]; intros m b; [done|].
  cbn -[minimax_columns seq]. case_decide; [done|].
  destruct m.
  - rewrite (minimax_columns_spec _ _ _ (fun col => value ai d false (drop b col (computerPiece ai))));
      [by unfold open_columns|intros; apply IH].
  - rewrite (minimax_columns_spec _ _ _ (fun col => value ai d true (drop b col (playerPiece ai))));
      [by unfold open_columns|intros; apply IH].
Qed.

(** The selection loop of [computeMove] over the open columns, with the
    console lines it prints. *)
Lemma computeMove_columns_spec ai cols best move out (b : B) :
  computeMove_columns ai cols best move out b =
  Some (((fold_left select_step
            (map (fun col => (col, root_value ai b col))
               (filter (fun col => isColumnOpen b col = true) cols))
            (best, move)).2,
         out ++ map (fun col => value_line col (root_value ai b col))
                  (filter (fun col => isColumnOpen b col = true) cols)), b).
Proof.
  revert best move out. induction cols as [|col cols IH]; intros best move out;
    [by rewrite app_nil_r|].
  rewrite filter_cons. cbn -[minimax filter root_value].
  destruct (isColumnOpen b col) eqn:Hopen; cbn -[minimax filter root_value];
    [rewrite decide_True by done|rewrite decide_False by done; apply IH].
  destruct (addMove_drop b col (computerPiece ai) Hopen) as (row & Hadd & Hundo).
  erewrite st_bind_Some; [|exact Hadd]. cbv beta.
  erewrite st_bind_Some; [|apply minimax_value]. cbv beta.
  cbn [map fold_left]. unfold select_step at 2. cbn [fst snd]. unfold root_value.
  destruct (Z.gtb _ best); cbv beta match;
    (erewrite st_bind_Some; [|reflexivity]); cbv beta; rewrite Hundo, IH, <- app_assoc;
    done.
Qed.

Lemma computeMove_best_move ai (b : B) :
  computeMove ai b = Some (best_move ai b, b).
Proof. rewrite computeMove_of_log. unfold computeMove_log. by rewrite computeMove_columns_spec. Qed.

End Refinement.

(** ** Bounds on the reference value *)

Section Bounds.
Context {B : Type} `{BoardAPI B} `{!BoardLaws B}.

Lemma in_open_columns (b : B) col :
  In col (open_columns b) <-> col < COLUMNS /\ isColumnOpen b col = true.
Proof.
  unfold open_columns. rewrite <- list_elem_of_In, list_elem_of_filter,
    list_elem_of_In, in_seq. split; intros [H1 H2]; split; (done || lia).
Qed.

Lemma open_columns_not_finished (b : B) :
  checkWin b = WIN_STATE_NOT_FINISHED -> exists col, In col (open_columns b).
Proof.
  intros (col & Hc & Ho)%not_finished_open. exists col. by apply in_open_columns.
Qed.

(** Folding [max] (seeded with [INT_MIN]) or [min] (seeded with
    [INT_MAX]) over the values of a node with an open column stays within
    any bound of the values. *)
Definition pick_of (maximizing : bool) : Z -> Z -> Z :=
  if maximizing then Z.max else Z.min.
Definition seed_of (maximizing : bool) : Z :=
  if maximizing then INT_MIN else INT_MAX.

Lemma fold_children_le (vs : list Z) (hi : Z) (maximizing : bool) :
  vs <> [] -> (INT_MIN <= hi)%Z -> Forall (fun v => v <= hi)%Z vs ->
  (fold_left (pick_of maximizing) vs (seed_of maximizing) <= hi)%Z.
Proof.
  intros Hne Hhi Hvs. destruct vs as [|v vs']; [done|].
  apply Forall_cons in Hvs as [Hv Hvs].
  destruct maximizing; simpl; unfold INT_MIN, INT_MAX in *.
  - apply fold_max_le; [lia|done].
  - destruct (fold_min_le vs' (Z.min 2147483647 v)) as [H1 _]. lia.
Qed.

Lemma fold_children_ge (vs : list Z) (lo : Z) (maximizing : bool) :
  vs <> [] -> (lo <= INT_MAX)%Z -> Forall (fun v => lo <= v)%Z vs ->
  (lo <= fold_left (pick_of maximizing) vs (seed_of maximizing))%Z.
Proof.
  intros Hne Hlo Hvs. destruct vs as [|v vs']; [done|].
  apply Forall_cons in Hvs as [Hv Hvs].
  destruct maximizing; simpl; unfold INT_MIN, INT_MAX in *.
  - destruct (fold_max_ge vs' (Z.max (-2147483648) v)) as [H1 _]. lia.
  - apply fold_min_ge; [lia|done].
Qed.

(** An unfinished node evaluates to the fold of its children's values. *)
Lemma value_node ai d m (b : B) :
  checkWin b = WIN_STATE_NOT_FINISHED ->
  value ai (S d) m b =
  fold_left (pick_of m)
    (map (fun col => value ai d (negb m)
            (drop b col (if m then computerPiece ai else playerPiece ai)))
       (open_columns b))
    (seed_of m).
Proof.
  intros Hnf. cbn -[getBoardHeuristicValue open_columns].
  rewrite decide_False by (intros Hn; by apply Hn). by destruct m.
Qed.

Lemma children_nonempty ai d m (b : B) p :
  checkWin b = WIN_STATE_NOT_FINISHED ->
  map (fun col => value ai d m (drop b col p)) (open_columns b) <> [].
Proof.
  intros (col & Hcol)%open_columns_not_finished Hnil%map_eq_nil.
  by rewrite Hnil in Hcol.
Qed.

(** The reference value never exceeds the win score of its depth, and
    reaches it only on a board the computer has already won. *)
Lemma value_win_bound ai d m (b : B) :
  (value ai d m b <= win_score d)%Z /\
  (value ai d m b = win_score d -> checkWin b = pieceToWinState (computerPiece ai)).
Proof.
  revert m b. induction d as [|d IH]; intros m b; [apply heuristic_le_win|].
  destruct (decide (checkWin b = WIN_STATE_NOT_FINISHED)) as [Hnf|Hnf];
    [|cbn -[getBoardHeuristicValue]; rewrite decide_True by done; apply heuristic_le_win].
  rewrite value_node by done.
  assert (Hle : (fold_left (pick_of m) (map (fun col => value ai d (negb m)
             (drop b col (if m then computerPiece ai else playerPiece ai))) (open_columns b))
             (seed_of m) <= win_score d)%Z).
  { apply fold_children_le; [by apply children_nonempty|unfold win_score, startingDepth, INT_MIN; lia|].
    apply Forall_map, Forall_forall. intros c _. apply IH. }
  unfold win_score in *. split; [lia|]. intros; lia.
Qed.

Lemma value_ge ai d m (b : B) :
  d <= startingDepth -> (-1000 <= value ai d m b)%Z.
Proof.
  revert m b. induction d as [|d IH]; intros m b Hd; [by apply heuristic_ge|].
  destruct (decide (checkWin b = WIN_STATE_NOT_FINISHED)) as [Hnf|Hnf];
    [|cbn -[getBoardHeuristicValue]; rewrite decide_True by done; by apply heuristic_ge].
  rewrite value_node by done.
  apply fold_children_ge; [by apply children_nonempty|unfold INT_MAX; lia|].
  apply Forall_map, Forall_forall. intros c _. apply IH. lia.
Qed.

End Bounds.

(** ** The search as a whole *)

Section Soundness.
Context {B : Type} `{BoardAPI B} `{!BoardLaws B}.

(** C2: Undo discipline.  For every depth up to [startingDepth], the
    stateful [minimax] never reaches undefined behaviour, returns the
    value of the reference minimax [value] (children evaluated on fresh
    boards), and leaves the shared board exactly as it found it: every
    speculative [addMove] is undone.  The value lies within [-1000, 1000],
    so the [INT_MIN]/[INT_MAX] seeds of its loops never escape. *)
Theorem minimax_restores_board ai d m (b : B) :
  d <= startingDepth ->
  minimax ai d m b = Some (value ai d m b, b) /\ (-1000 <= value ai d m b <= 1000)%Z.
Proof.
  intros Hd. split; [apply minimax_value|]. split; [by apply value_ge|].
  destruct (value_win_bound ai d m b) as [Hle _].
  unfold win_score, startingDepth in *. lia.
Qed.

(** C35: The console output of [computeMove].  [computeMove] never
    reaches undefined behaviour, restores the board and returns
    [best_move]; on the way it prints, for each open column in ascending
    order and for no other, the line [Col c Value v] where [v] is the
    value [minimax] returned for that column, the reference minimax value
    of the position after the computer's drop in [c].  Printing changes
    neither the move nor the board. *)
Theorem computeMove_console ai (b : B) :
  computeMove_log ai b =
  Some ((best_move ai b,
         map (fun col => value_line col (value ai startingDepth false (drop b col (computerPiece ai))))
             (open_columns b)), b).
Proof. unfold computeMove_log. by rewrite computeMove_columns_spec. Qed.

End Soundness.

Lemma minimax_restores_board_witness :
  minimax main_ai startingDepth false Board.empty_board =
    Some (value main_ai startingDepth false Board.empty_board, Board.empty_board).
Proof. apply (minimax_restores_board main_ai startingDepth false Board.empty_board). lia. Defined.

Lemma computeMove_console_witness :
  computeMove_log main_ai Board.empty_board =
  Some ((best_move main_ai Board.empty_board,
         map (fun col => value_line col (value main_ai startingDepth false
                (drop Board.empty_board col (computerPiece main_ai))))
             (open_columns Board.empty_board)), Board.empty_board).
Proof. apply (computeMove_console main_ai Board.empty_board). Defined.
