(* ===== verification/Strategy.v ===== *)
(** * What [computeMove] chooses

    On the reference model of [SearchSpec]: the selection loop of
    [computeMove] returns the first column of maximal [root_value]; with
    the value bounds this gives the properties of the column the AI plays
    (an open column whenever there is one, the lowest-indexed among equal
    values, the first immediately winning column), and the defined result
    [0] of the C++ code on a board with no open column. *)

From S2P Require Import Prelude Board Interface Heuristic Search SearchSpec.
Import Board (piece(..), win_state(..), ROWS, COLUMNS, pieceToWinState).

(** ** The selection loop *)

(** Folding [select_step] over candidates whose values all exceed the seed
    returns the first candidate of maximal value. *)
Lemma select_first (f : nat -> Z) (l : list nat) (init : Z) (m0 : nat) :
  l <> [] -> Forall (fun c => init < f c)%Z l ->
  exists l1 l2,
    l = l1 ++ (fold_left select_step (map (fun c => (c, f c)) l) (init, m0)).2 :: l2 /\
    (fold_left select_step (map (fun c => (c, f c)) l) (init, m0)).1
      = f (fold_left select_step (map (fun c => (c, f c)) l) (init, m0)).2 /\
    Forall (fun c => f c < f (fold_left select_step (map (fun c => (c, f c)) l) (init, m0)).2)%Z l1 /\
    Forall (fun c => f c <= f (fold_left select_step (map (fun c => (c, f c)) l) (init, m0)).2)%Z l2.
Proof.
  induction l as [|x l IH] using rev_ind; [done|]. intros _ Hall.
  apply Forall_app in Hall as [Hl Hx]. apply Forall_inv in Hx.
  rewrite map_app, fold_left_app. simpl.
  destruct (decide (l = [])) as [->|Hne].
  - simpl. unfold select_step; simpl. rewrite (proj2 (Z.gtb_lt _ _) Hx).
    exists [], []. simpl. split_and!; (done || constructor).
  - destruct (IH Hne Hl) as (l1 & l2 & Hsplit & Hbest & H1 & H2).
    set (r := fold_left select_step (map (fun c => (c, f c)) l) (init, m0)) in *.
    destruct (Z.gtb_spec (f x) r.1) as [Hgt|Hle].
    + assert (E : select_step r (x, f x) = (f x, x)).
      { unfold select_step; simpl. by rewrite (proj2 (Z.gtb_lt _ _) Hgt). }
      rewrite E; simpl. exists l, []. split_and!; [done|done| |constructor].
      rewrite Hsplit. apply Forall_app. split; [|constructor].
      * eapply Forall_impl; [exact H1|]. simpl. intros; lia.
      * lia.
      * eapply Forall_impl; [exact H2|]. simpl. intros; lia.
    + assert (E : select_step r (x, f x) = r).
      { unfold select_step; simpl. by rewrite Z.gtb_ltb, (proj2 (Z.ltb_ge _ _) Hle). }
      rewrite E. exists l1, (l2 ++ [x]). rewrite Hsplit, <- app_assoc.
      split_and!; [done|done|done|].
      apply Forall_app. split; [done|]. constructor; [lia|constructor].
Qed.

Section Choice.
Context {B : Type} `{BoardAPI B} `{!BoardLaws B}.

Lemma open_columns_sorted (b : B) : StronglySorted lt (open_columns b).
Proof. apply StronglySorted_filter, seq_StronglySorted. Qed.

Lemma root_value_bounds ai (b : B) col :
  (-1000 <= root_value ai b col <= win_score startingDepth)%Z.
Proof.
  unfold root_value. split; [by apply value_ge|apply value_win_bound].
Qed.

(** [best_move] is an open column, of maximal [root_value], and every open
    column before it has a strictly smaller value. *)
Lemma best_move_spec ai (b : B) :
  open_columns b <> [] ->
  best_move ai b ∈ open_columns b /\
  (forall c, c ∈ open_columns b -> (root_value ai b c <= root_value ai b (best_move ai b))%Z) /\
  (forall c, c ∈ open_columns b -> c < best_move ai b ->
     (root_value ai b c < root_value ai b (best_move ai b))%Z).
Proof.
  intros Hne.
  destruct (select_first (root_value ai b) (open_columns b) INT_MIN 0 Hne)
    as (l1 & l2 & Hsplit & _ & H1 & H2).
  { apply Forall_forall. intros c _. pose proof (root_value_bounds ai b c).
    unfold INT_MIN; lia. }
  unfold best_move. set (m := (fold_left _ _ _).2) in *.
  pose proof (open_columns_sorted b) as Hs. rewrite Hsplit in Hs.
  apply StronglySorted_split in Hs as [Hlt Hgt].
  rewrite Forall_forall in H1, H2, Hlt, Hgt.
  rewrite Hsplit. split_and!.
  - apply elem_of_app. right. apply elem_of_cons. by left.
  - intros c [Hc|[->|Hc]%elem_of_cons]%elem_of_app; [|lia|auto].
    pose proof (H1 c Hc). lia.
  - intros c [Hc|[->|Hc]%elem_of_cons]%elem_of_app Hcm; [auto|lia|].
    pose proof (Hgt c Hc). lia.
Qed.

Lemma open_columns_iff (b : B) c :
  c ∈ open_columns b <-> c < COLUMNS /\ isColumnOpen b c = true.
Proof. rewrite list_elem_of_In. apply in_open_columns. Qed.

Lemma open_columns_nonempty (b : B) c : c ∈ open_columns b -> open_columns b <> [].
Proof. intros Hin Hnil. rewrite Hnil in Hin. by apply elem_of_nil in Hin. Qed.

(** The first drop [computeMove] tries returns a win at once: the value
    is the win score of the full depth. *)
Lemma root_value_immediate_win ai (b : B) col :
  computerPiece ai <> PIECE_EMPTY ->
  checkWin (drop b col (computerPiece ai)) = pieceToWinState (computerPiece ai) ->
  root_value ai b col = win_score startingDepth.
Proof.
  intros Hc Hwin. unfold root_value, startingDepth. cbn -[getBoardHeuristicValue].
  rewrite decide_True by (rewrite Hwin; by destruct (computerPiece ai)).
  unfold getBoardHeuristicValue. by rewrite decide_True.
Qed.

(** C1: Choice of the column.  Whenever some column is open,
    [computeMove] runs without undefined behaviour, leaves the board as it
    found it, and returns an open column whose value [root_value] (the
    minimax value of the position after the computer's drop, searched
    [startingDepth] further plies) is maximal among the open columns; every
    open column of lower index has a strictly smaller value, so ties go to
    the lowest-indexed column. *)
Theorem computeMove_first_best ai (b : B) :
  (exists c, c < COLUMNS /\ isColumnOpen b c = true) ->
  exists col, computeMove ai b = Some (col, b) /\
    col < COLUMNS /\ isColumnOpen b col = true /\
    (forall c, c < COLUMNS -> isColumnOpen b c = true ->
       (root_value ai b c <= root_value ai b col)%Z) /\
    (forall c, c < col -> isColumnOpen b c = true ->
       (root_value ai b c < root_value ai b col)%Z).
Proof.
  intros (c0 & Hc0 & Ho0). exists (best_move ai b).
  destruct (best_move_spec ai b (open_columns_nonempty b c0 ltac:(by apply open_columns_iff)))
    as (Hin & Hmax & Hfirst).
  apply open_columns_iff in Hin as [Hlt Hopen].
  split_and!; [apply computeMove_best_move|done|done| |].
  - intros c Hc Ho. apply Hmax, open_columns_iff. done.
  - intros c Hc Ho. apply Hfirst; [|done]. apply open_columns_iff. split; [lia|done].
Qed.

(** C7: No open column.  On a board with no open column [computeMove]
    returns the untouched initial [move = 0] (the spec leaves this case
    undefined) and leaves the board unchanged. *)
Theorem computeMove_no_open_column ai (b : B) :
  (forall c, c < COLUMNS -> isColumnOpen b c = false) ->
  computeMove ai b = Some (0, b).
Proof.
  intros Hclosed. rewrite computeMove_best_move. unfold best_move.
  replace (open_columns b) with (@nil nat); [done|].
  symmetry. apply elem_of_nil_inv. intros c [Hc Ho]%open_columns_iff.
  rewrite Hclosed in Ho by done. discriminate.
Qed.

(** The reference choice is the first immediately winning column: the
    win scores [win_score startingDepth = 1000], which no other position
    reaches. *)
Lemma best_move_immediate_win ai (b : B) col :
  computerPiece ai <> PIECE_EMPTY -> col < COLUMNS -> isColumnOpen b col = true ->
  checkWin (drop b col (computerPiece ai)) = pieceToWinState (computerPiece ai) ->
  (forall c, c < col -> isColumnOpen b c = true ->
     checkWin (drop b c (computerPiece ai)) <> pieceToWinState (computerPiece ai)) ->
  best_move ai b = col.
Proof.
  intros Hcp Hcol Hopen Hwin Hbefore.
  assert (Hin : col ∈ open_columns b) by (by apply open_columns_iff).
  destruct (best_move_spec ai b (open_columns_nonempty b col Hin)) as (Hm & Hmax & Hfirst).
  set (m := best_move ai b) in *.
  pose proof (root_value_immediate_win ai b col Hcp Hwin) as Hv.
  pose proof (Hmax col Hin) as Hle. pose proof (root_value_bounds ai b m) as [_ Hub].
  assert (Heq : root_value ai b m = win_score startingDepth) by lia.
  destruct (value_win_bound ai startingDepth false (drop b m (computerPiece ai))) as [_ Hw].
  apply Hw in Heq. apply open_columns_iff in Hm as [Hm Hmo].
  destruct (lt_eq_lt_dec m col) as [[Hlt|Heqm]|Hgt]; [|done|].
  - exfalso. by apply (Hbefore m Hlt Hmo).
  - pose proof (Hfirst col Hin Hgt). lia.
Qed.

(** C3: Immediate win.  If dropping the computer's piece in [col] wins at
    once and no open column before [col] does, [computeMove] returns
    [col]: the win scores [win_score startingDepth = 1000], which no other
    position reaches. *)
Theorem computeMove_immediate_win ai (b : B) col :
  computerPiece ai <> PIECE_EMPTY -> col < COLUMNS -> isColumnOpen b col = true ->
  checkWin (drop b col (computerPiece ai)) = pieceToWinState (computerPiece ai) ->
  (forall c, c < col -> isColumnOpen b c = true ->
     checkWin (drop b c (computerPiece ai)) <> pieceToWinState (computerPiece ai)) ->
  computeMove ai b = Some (col, b).
Proof.
  intros. rewrite computeMove_best_move. by erewrite best_move_immediate_win.
Qed.

End Choice.

(** ** Witnesses on the board of [board.h] and the AI of [main.cpp] *)

(** The computer's three pieces in the bottom row, columns 0-2. *)
Definition three_of_B : Board.board :=
  fold_left (fun b c => Board.setPiece b 5 c PIECE_B) [0; 1; 2] Board.empty_board.

(** A board whose top row is full. *)
Definition top_row_full : Board.board :=
  fold_left (fun b c => Board.setPiece b 0 c PIECE_A) (seq 0 COLUMNS) Board.empty_board.

Lemma computeMove_first_best_witness :
  exists col, computeMove main_ai Board.empty_board = Some (col, Board.empty_board) /\
              col < COLUMNS.
Proof.
  destruct (computeMove_first_best main_ai Board.empty_board) as (col & Hrun & Hlt & _);
    [exists 0; split; [unfold COLUMNS; lia|vm_compute; reflexivity]|].
  exists col. split; [exact Hrun|exact Hlt].
Defined.

Lemma computeMove_no_open_column_witness :
  computeMove main_ai top_row_full = Some (0, top_row_full).
Proof.
  apply computeMove_no_open_column. intros c Hc.
  do 7 (destruct c as [|c]; [vm_compute; reflexivity|]). unfold COLUMNS in Hc. lia.
Defined.

Lemma computeMove_immediate_win_witness :
  computeMove main_ai three_of_B = Some (3, three_of_B).
Proof.
  apply computeMove_immediate_win;
    [discriminate|unfold COLUMNS; lia|vm_compute; reflexivity|vm_compute; reflexivity|].
  intros c Hc _. destruct c as [|[|[|c]]]; [vm_compute; discriminate..|lia].
Defined.
