(* ===== verification/Symmetry.v ===== *)
(** * The evaluation is antisymmetric in the two players

    [swap ai] is the AI with the roles of its two pieces exchanged.  The
    four [if]s of a window of [AI::getBoardHeuristicValue] score the
    player's threes [-3] and the computer's [+3] in the same patterns, and
    the terminal scores are opposite, so exchanging the roles negates
    every leaf value; [max] and [min] exchange with it, so the reference
    minimax value of the other side to move is the opposite: the search is
    the same game seen from either side. *)

From S2P Require Import Prelude Board Interface Heuristic Search SearchSpec.
Import Board (piece(..), win_state(..), ROWS, COLUMNS, pieceToWinState).

(** The AI playing the other side. *)
Definition swap (ai : AI) : AI := mkAI (playerPiece ai) (computerPiece ai).

Lemma swap_wf ai : ai_wf ai -> ai_wf (swap ai).
Proof. unfold ai_wf, swap; cbn. naive_solver. Qed.

Lemma swap_swap ai : swap (swap ai) = ai.
Proof. by destruct ai. Qed.

(** Two accumulations whose steps keep the sum of the accumulators. *)
Lemma fold_left_sum {A} (f g : Z -> A -> Z) (l : list A) (a a' : Z) :
  (forall x y y', (g y x + f y' x = y + y')%Z) ->
  (fold_left g l a + fold_left f l a' = a + a')%Z.
Proof.
  intros Hfg. revert a a'. induction l as [|x l IH]; intros a a'; cbn [fold_left]; [done|].
  rewrite IH. apply Hfg.
Qed.

Section Antisymmetry.
Context {B : Type} `{BoardAPI B}.

Lemma window_points_swap ai (b : B) w p p' :
  (window_points (swap ai) b w p + window_points ai b w p' = p + p')%Z.
Proof.
  unfold window_points. cbn [swap computerPiece playerPiece].
  destruct w as [|x0 [|x1 [|x2 [|x3 [|]]]]]; try lia.
  repeat match goal with |- context [if ?c then _ else _] => destruct c end; lia.
Qed.

Lemma heuristic_vertical_swap ai (b : B) p p' :
  (heuristic_vertical (swap ai) b p + heuristic_vertical ai b p' = p + p')%Z.
Proof.
  apply fold_left_sum. intros c y y'. apply fold_left_sum. intros r z z'.
  apply window_points_swap.
Qed.

Lemma heuristic_horizontal_swap ai (b : B) p p' :
  (heuristic_horizontal (swap ai) b p + heuristic_horizontal ai b p' = p + p')%Z.
Proof.
  apply fold_left_sum. intros r y y'. apply fold_left_sum. intros c z z'.
  apply window_points_swap.
Qed.

Lemma heuristic_diagonal_swap ai (b : B) p p' :
  (heuristic_diagonal (swap ai) b p + heuristic_diagonal ai b p' = p + p')%Z.
Proof.
  apply fold_left_sum. intros c y y'. apply fold_left_sum. intros r z z'.
  rewrite window_points_swap. apply window_points_swap.
Qed.

Lemma static_score_swap ai (b : B) :
  static_score (swap ai) b = (- static_score ai b)%Z.
Proof.
  unfold static_score.
  pose proof (heuristic_diagonal_swap ai b
    (heuristic_horizontal (swap ai) b (heuristic_vertical (swap ai) b 0))
    (heuristic_horizontal ai b (heuristic_vertical ai b 0))).
  pose proof (heuristic_horizontal_swap ai b (heuristic_vertical (swap ai) b 0)
    (heuristic_vertical ai b 0)).
  pose proof (heuristic_vertical_swap ai b 0 0). lia.
Qed.

(** Exchanging the roles negates every leaf value. *)
Lemma heuristic_swap ai (b : B) depth :
  ai_wf ai ->
  getBoardHeuristicValue (swap ai) b depth = (- getBoardHeuristicValue ai b depth)%Z.
Proof.
  intros (Hc & Hp & Hcp). pose proof (pieceToWinState_inj _ _ Hc Hcp) as Hne.
  unfold getBoardHeuristicValue. cbn [swap computerPiece playerPiece].
  rewrite static_score_swap. repeat case_decide; congruence || lia.
Qed.

End Antisymmetry.

(** Negating the values exchanges the [max] and [min] folds of a node,
    seeds included, when the values lie within the [int] range. *)
Lemma fold_pick_neg (m : bool) (vs : list Z) :
  vs <> [] -> Forall (fun v => -1000 <= v <= 1000)%Z vs ->
  fold_left (pick_of (negb m)) (map Z.opp vs) (seed_of (negb m)) =
  (- fold_left (pick_of m) vs (seed_of m))%Z.
Proof.
  intros Hne Hvs. destruct vs as [|v vs]; [done|]. apply Forall_cons in Hvs as [Hv _].
  assert (Hneg : forall (mx : bool) (a : Z),
    fold_left (pick_of (negb mx)) (map Z.opp vs) (- a)%Z = (- fold_left (pick_of mx) vs a)%Z).
  { clear Hne. intros mx. induction vs as [|w vs IH]; intros a; cbn [map fold_left]; [done|].
    rewrite <- IH. f_equal. destruct mx; cbn; lia. }
  cbn [map fold_left]. rewrite <- Hneg. f_equal.
  destruct m; cbn; unfold INT_MIN, INT_MAX; lia.
Qed.

Section ValueAntisymmetry.
Context {B : Type} `{BoardAPI B} `{!BoardLaws B}.

(** The reference minimax value with the roles exchanged, the other side
    to move, is the opposite value. *)
Lemma value_swap ai d m (b : B) :
  ai_wf ai -> d <= startingDepth ->
  value (swap ai) d (negb m) b = (- value ai d m b)%Z.
Proof.
  intros Hai. revert m b. induction d as [|d IH]; intros m b Hd.
  { cbn [value]. by apply heuristic_swap. }
  destruct (decide (checkWin b = WIN_STATE_NOT_FINISHED)) as [Hnf|Hnf].
  2:{ cbn -[getBoardHeuristicValue]. rewrite !decide_True by done. by apply heuristic_swap. }
  rewrite !value_node, negb_involutive by done.
  replace (if negb m then computerPiece (swap ai) else playerPiece (swap ai))
    with (if m then computerPiece ai else playerPiece ai) by (by destruct m).
  erewrite map_ext; [|intros col; rewrite <- (negb_involutive m) at 1; apply IH; lia].
  rewrite <- map_map. apply fold_pick_neg; [by apply children_nonempty|].
  apply Forall_map, Forall_forall. intros col _. split; [apply value_ge; lia|].
  destruct (value_win_bound ai d (negb m) (drop b col (if m then computerPiece ai
    else playerPiece ai))) as [Hle _]. unfold win_score, startingDepth in *. lia.
Qed.

(** C29: the evaluation is antisymmetric.  With two distinct real pieces,
    exchanging the roles of the computer and the player negates the value
    [getBoardHeuristicValue] gives every board at every depth, and the
    reference minimax value of a position searched to any depth up to
    [startingDepth] with the other side to move is the opposite value. *)
Theorem minimax_antisymmetric ai d m (b : B) :
  ai_wf ai -> d <= startingDepth ->
  getBoardHeuristicValue (swap ai) b d = (- getBoardHeuristicValue ai b d)%Z /\
  value (swap ai) d (negb m) b = (- value ai d m b)%Z.
Proof. intros Hai Hd. split; [by apply heuristic_swap|by apply value_swap]. Qed.

End ValueAntisymmetry.

Lemma minimax_antisymmetric_witness :
  value (swap main_ai) 1 true Board.empty_board = (- value main_ai 1 false Board.empty_board)%Z.
Proof.
  apply (minimax_antisymmetric main_ai 1 false Board.empty_board);
    [split_and!; discriminate|unfold startingDepth; lia].
Defined.
