(* ===== verification/Forced.v ===== *)
(** * Forced wins: what the minimax values mean

    [AI::getBoardHeuristicValue] scores a board the computer has won
    [1000 - (startingDepth - depth)], so a win reached [j] plies below a
    node searched to depth [d] scores [994 + d - j], while every other
    leaf scores at most [828].  This file states, on any board meeting
    [BoardLaws], the game-theoretic notion the search approximates, the
    inductive [forced_win j m b] (whatever the player does, the computer
    can win within [j] plies), and proves that the reference minimax
    [value] decides it exactly: [value] reaches [994 + d - j] iff the
    computer can force a win within [j] plies.  So [computeMove], which
    maximises [value], never misses a win it can force within its
    horizon and always picks one of the fastest. *)

From S2P Require Import Prelude Board Interface Heuristic Search SearchSpec Strategy Symmetry.
Import Board (piece(..), win_state(..), ROWS, COLUMNS, pieceToWinState).

Section Forced.
Context {B : Type} `{BoardAPI B} `{!BoardLaws B}.
Variable ai : AI.

(** The computer can force a win within [j] plies from [b]; [m] tells
    whether the computer is to move. *)
Inductive forced_win : nat -> bool -> B -> Prop :=
  | fw_won j m b :
      checkWin b = pieceToWinState (computerPiece ai) -> forced_win j m b
  | fw_move j b col :
      checkWin b = WIN_STATE_NOT_FINISHED -> col < COLUMNS -> isColumnOpen b col = true ->
      forced_win j false (drop b col (computerPiece ai)) -> forced_win (S j) true b
  | fw_reply j b :
      checkWin b = WIN_STATE_NOT_FINISHED ->
      (forall col, col < COLUMNS -> isColumnOpen b col = true ->
         forced_win j true (drop b col (playerPiece ai))) ->
      forced_win (S j) false b.

Hypothesis Hai : ai_wf ai.

Lemma computer_win_finished : pieceToWinState (computerPiece ai) <> WIN_STATE_NOT_FINISHED.
Proof. destruct Hai as (Hc & _). by apply pieceToWinState_not_finished. Qed.

(** ** Inversion *)

Lemma forced_win_terminal j m b :
  checkWin b <> WIN_STATE_NOT_FINISHED ->
  forced_win j m b <-> checkWin b = pieceToWinState (computerPiece ai).
Proof. intros Hf. split; [by inversion 1|by constructor]. Qed.

Lemma forced_win_0 m b :
  checkWin b = WIN_STATE_NOT_FINISHED -> ~ forced_win 0 m b.
Proof. intros Hnf Hfw. inversion Hfw. pose proof computer_win_finished. congruence. Qed.

Lemma forced_win_move j b :
  checkWin b = WIN_STATE_NOT_FINISHED ->
  forced_win (S j) true b <->
  exists col, col ∈ open_columns b /\ forced_win j false (drop b col (computerPiece ai)).
Proof.
  intros Hnf. pose proof computer_win_finished. split.
  - inversion 1; [congruence|]. eexists. rewrite open_columns_iff. eauto.
  - intros (col & [Hc Ho]%open_columns_iff & Hfw). by eapply fw_move.
Qed.

Lemma forced_win_reply j b :
  checkWin b = WIN_STATE_NOT_FINISHED ->
  forced_win (S j) false b <->
  forall col, col ∈ open_columns b -> forced_win j true (drop b col (playerPiece ai)).
Proof.
  intros Hnf. pose proof computer_win_finished. split.
  - inversion 1; [congruence|]. intros col [Hc Ho]%open_columns_iff. auto.
  - intros Hall. apply fw_reply; [done|]. intros col Hc Ho.
    apply Hall, open_columns_iff. done.
Qed.

(** ** The leaves *)

(** A leaf scores [994] or more only on a board the computer has won. *)
Lemma heuristic_high b depth (k : Z) :
  depth <= startingDepth -> (994 <= k)%Z ->
  (k <= getBoardHeuristicValue ai b depth)%Z <->
  checkWin b = pieceToWinState (computerPiece ai) /\ (k <= win_score depth)%Z.
Proof.
  intros Hd Hk. pose proof (static_score_bound ai b).
  unfold getBoardHeuristicValue, win_score, startingDepth in *.
  repeat case_decide; split; intros; naive_solver lia.
Qed.

(** ** The values *)

(** The threshold of a win within [j] plies, [j] plies above a node of
    depth [S d]. *)
Lemma threshold_S d j :
  (994 + Z.of_nat (S d) - Z.of_nat (S j) = 994 + Z.of_nat d - Z.of_nat j)%Z.
Proof. lia. Qed.

(** The value of a position reaches [994 + d - j] exactly when the
    computer can force a win within [j] plies. *)
Lemma value_win_threshold d j m (b : B) :
  d <= startingDepth -> j <= d ->
  ((994 + Z.of_nat d - Z.of_nat j)%Z <= value ai d m b)%Z <-> forced_win j m b.
Proof.
  revert j m b. induction d as [|d IH]; intros j m b Hd Hj.
  { assert (j = 0) as -> by lia. cbn [value].
    rewrite heuristic_high by (unfold startingDepth; lia).
    destruct (decide (checkWin b = WIN_STATE_NOT_FINISHED)) as [Hnf|Hnf].
    - pose proof computer_win_finished. split; [intros [? _]; congruence|].
      intros Hfw. by destruct (forced_win_0 m b Hnf Hfw).
    - rewrite forced_win_terminal by done. unfold win_score.
      split; [by intros [? _]|intros; split; [done|unfold startingDepth; lia]]. }
  destruct (decide (checkWin b = WIN_STATE_NOT_FINISHED)) as [Hnf|Hnf].
  2:{ cbn -[getBoardHeuristicValue]. rewrite decide_True by done.
      rewrite heuristic_high, forced_win_terminal by (done || unfold startingDepth in *; lia).
      split; [by intros [? _]|intros; split; [done|unfold win_score, startingDepth in *; lia]]. }
  rewrite value_node by done. destruct j as [|j].
  { split; [|intros Hfw; by destruct (forced_win_0 m b Hnf Hfw)]. intros Hge. exfalso.
    assert (Hle : (fold_left (pick_of m) (map (fun col => value ai d (negb m)
        (drop b col (if m then computerPiece ai else playerPiece ai))) (open_columns b))
        (seed_of m) <= win_score d)%Z).
    { apply fold_children_le; [by apply children_nonempty|unfold win_score, startingDepth, INT_MIN; lia|].
      apply Forall_map, Forall_forall. intros c _. apply value_win_bound. }
    unfold win_score, startingDepth in *. lia. }
  rewrite threshold_S. destruct m; cbn [pick_of seed_of negb].
  - rewrite forced_win_move, fold_max_lower_iff by done. setoid_rewrite elem_of_map_iff.
    split.
    + intros [Hlo|(v & (col & -> & Hcol) & Hv)]; [unfold INT_MIN in Hlo; lia|].
      exists col. split; [done|]. apply IH; [lia|lia|done].
    + intros (col & Hcol & Hfw). right. eexists. split; [by exists col|].
      apply IH; [lia|lia|done].
  - rewrite forced_win_reply, fold_min_lower_iff by done. setoid_rewrite elem_of_map_iff.
    split.
    + intros [_ Hall] col Hcol. apply IH; [lia|lia|]. apply Hall. by exists col.
    + intros Hall. split; [unfold INT_MAX, startingDepth in *; lia|].
      intros v (col & -> & Hcol). apply IH; [lia|lia|]. by apply Hall.
Qed.

(** C28: [computeMove] finds the fastest forced win.  If dropping the
    computer's piece in some open column leaves a position from which the
    computer can force a win within [j <= startingDepth] further plies,
    [computeMove] runs without undefined behaviour, leaves the board
    unchanged and returns an open column from which it can force a win
    within [j] plies as well. *)
Theorem computeMove_forced_win (b : B) col j :
  j <= startingDepth -> col < COLUMNS -> isColumnOpen b col = true ->
  forced_win j false (drop b col (computerPiece ai)) ->
  exists c, computeMove ai b = Some (c, b) /\ c < COLUMNS /\ isColumnOpen b c = true /\
    forced_win j false (drop b c (computerPiece ai)).
Proof.
  intros Hj Hc Ho Hfw. exists (best_move ai b).
  assert (Hin : col ∈ open_columns b) by (by apply open_columns_iff).
  destruct (best_move_spec ai b (open_columns_nonempty b col Hin)) as (Hm & Hmax & _).
  apply open_columns_iff in Hm as [Hmc Hmo].
  split_and!; [apply computeMove_best_move|done|done|].
  apply (value_win_threshold startingDepth j false) in Hfw; [|done|done].
  apply (value_win_threshold startingDepth j false); [done|done|].
  pose proof (Hmax col Hin). unfold root_value in *. lia.
Qed.

(** C27: minimax decides forced wins.  For every depth [d] up to
    [startingDepth] and every [j <= d], [AI::minimax] on the shared board
    returns, without undefined behaviour and leaving the board as it was,
    a value that is at least [994 + d - j] exactly when the computer can
    force a win within [j] plies, whoever is to move: a faster forced win
    scores higher, and no position without a forced win within the
    horizon reaches [994]. *)
Theorem minimax_forced_win d j m (b : B) :
  d <= startingDepth -> j <= d ->
  exists v, minimax ai d m b = Some (v, b) /\
    ((994 + Z.of_nat d - Z.of_nat j <= v)%Z <-> forced_win j m b).
Proof.
  intros Hd Hj. exists (value ai d m b).
  split; [apply minimax_value|by apply value_win_threshold].
Qed.

End Forced.

(** ** Forced losses, by symmetry *)

Section Losses.
Context {B : Type} `{BoardAPI B} `{!BoardLaws B}.
Variable ai : AI.
Hypothesis Hai : ai_wf ai.

(** The value of a position is at most [-(994 + d - j)] exactly when the
    player can force a win within [j] plies: a forced win of [swap ai]. *)
Lemma value_loss_threshold d j m (b : B) :
  d <= startingDepth -> j <= d ->
  (value ai d m b <= - (994 + Z.of_nat d - Z.of_nat j))%Z <->
  forced_win (swap ai) j (negb m) b.
Proof.
  intros Hd Hj.
  rewrite <- (value_win_threshold (swap ai) (swap_wf ai Hai) d j (negb m) b Hd Hj).
  rewrite value_swap by done. lia.
Qed.

(** C30: minimax decides forced losses.  For every depth [d] up to
    [startingDepth] and every [j <= d], [AI::minimax] returns a value that
    is at most [-(994 + d - j)] exactly when the player can force a win
    within [j] plies (a forced win of the AI with the roles exchanged,
    [negb m] telling whether the player is to move). *)
Theorem minimax_forced_loss d j m (b : B) :
  d <= startingDepth -> j <= d ->
  exists v, minimax ai d m b = Some (v, b) /\
    ((v <= - (994 + Z.of_nat d - Z.of_nat j))%Z <-> forced_win (swap ai) j (negb m) b).
Proof.
  intros Hd Hj. exists (value ai d m b).
  split; [apply minimax_value|by apply value_loss_threshold].
Qed.

(** C31: [computeMove] avoids the losses it can avoid.  If dropping the
    computer's piece in some open column leaves the player no win it can
    force within [j <= startingDepth] plies, the column [computeMove]
    returns leaves none either; so an unavoidable forced loss is put off
    as long as the search can see. *)
Theorem computeMove_avoids_forced_loss (b : B) col j :
  j <= startingDepth -> col < COLUMNS -> isColumnOpen b col = true ->
  ~ forced_win (swap ai) j true (drop b col (computerPiece ai)) ->
  exists c, computeMove ai b = Some (c, b) /\ c < COLUMNS /\ isColumnOpen b c = true /\
    ~ forced_win (swap ai) j true (drop b c (computerPiece ai)).
Proof.
  intros Hj Hc Ho Hnl. exists (best_move ai b).
  assert (Hin : col ∈ open_columns b) by (by apply open_columns_iff).
  destruct (best_move_spec ai b (open_columns_nonempty b col Hin)) as (Hm & Hmax & _).
  apply open_columns_iff in Hm as [Hmc Hmo].
  split_and!; [apply computeMove_best_move|done|done|].
  rewrite <- (value_loss_threshold startingDepth j false) in Hnl |- * by done.
  pose proof (Hmax col Hin). unfold root_value in *. lia.
Qed.

End Losses.

(** ** Witnesses *)

Lemma main_ai_wf : ai_wf main_ai.
Proof. split_and!; discriminate. Qed.

Lemma minimax_forced_win_witness :
  exists v, minimax main_ai 0 true (four_of PIECE_B) = Some (v, four_of PIECE_B) /\
    ((994 <= v)%Z <-> forced_win main_ai 0 true (four_of PIECE_B)).
Proof. apply (minimax_forced_win main_ai main_ai_wf 0 0 true); lia. Defined.

Lemma computeMove_forced_win_witness :
  exists c, computeMove main_ai three_of_B = Some (c, three_of_B) /\
    forced_win main_ai 0 false (drop three_of_B c PIECE_B).
Proof.
  destruct (computeMove_forced_win main_ai main_ai_wf three_of_B 3 0)
    as (c & Hc & _ & _ & Hfw);
    [unfold startingDepth; lia|unfold COLUMNS; lia|vm_compute; reflexivity|
     apply fw_won; vm_compute; reflexivity|].
  exists c. exact (conj Hc Hfw).
Defined.

Lemma minimax_forced_loss_witness :
  exists v, minimax main_ai 0 true (four_of PIECE_A) = Some (v, four_of PIECE_A) /\
    ((v <= - 994)%Z <-> forced_win (swap main_ai) 0 false (four_of PIECE_A)).
Proof. apply (minimax_forced_loss main_ai main_ai_wf 0 0 true); lia. Defined.

Lemma computeMove_avoids_forced_loss_witness :
  exists c, computeMove main_ai Board.empty_board = Some (c, Board.empty_board) /\
    ~ forced_win (swap main_ai) 0 true (drop Board.empty_board c PIECE_B).
Proof.
  destruct (computeMove_avoids_forced_loss main_ai main_ai_wf Board.empty_board 3 0)
    as (c & Hc & _ & _ & Hnl);
    [unfold startingDepth; lia|unfold COLUMNS; lia|vm_compute; reflexivity|
     apply forced_win_0; [apply swap_wf, main_ai_wf|vm_compute; reflexivity]|].
  exists c. exact (conj Hc Hnl).
Defined.
