(* ===== verification/Game.v ===== *)
(** * The controller of [src/main.cpp]

    Module [Game] models the globals [board], [turn] and [playing] of
    [main.cpp] as a record and the two event handlers as functions on it:
    [moveButtonCallback] (a click on a column button, running [handleMove]:
    the human's drop, the verdict, the AI's reply through
    [AI::computeMove] with [main_ai], the second verdict) and
    [resetButtonCallback].  A drop that reaches undefined behaviour makes
    the handler return [None].  The reachable states are those of the step
    relation [step] from the initial globals; the theorems give their
    invariant, what a click does, and that a game ends ([run_clicks] and
    [play] run sequences of clicks).  The DOM effects of the same handlers
    are in [Page], which refines this model. *)

From S2P Require Import Prelude Board Interface Heuristic Search SearchSpec Strategy.
Import Board (piece(..), win_state(..), ROWS, COLUMNS).

Module Game.

(** The globals [board], [turn] and [playing] (main.cpp 27-30, 91). *)
Record game := mkGame { board : Board.board; turn : piece; playing : bool }.

(** [Board board = Board()], [int turn = Board::PIECE_A], [bool playing = true];
    [garbage] is the uninitialised array the constructor resets. *)
Definition initial (garbage : Board.board) : game :=
  mkGame (Board.Board_new garbage) PIECE_A true.

(** [changeTurn] (main.cpp 93-105), without its label text. *)
Definition changeTurn (turn : piece) : piece :=
  if decide (turn = PIECE_A) then PIECE_B else PIECE_A.

(** The [if]/[else if] chain on [winState]: [DRAW], [WIN_STATE_A] and
    [WIN_STATE_B] stop the game ([playing = false]); the [else] goes on. *)
Definition game_over (winState : win_state) : bool :=
  match winState with
  | WIN_STATE_DRAW | WIN_STATE_A | WIN_STATE_B => true
  | WIN_STATE_NOT_FINISHED => false
  end.

(** [handleMove] (main.cpp 107-166): the human's drop in [col]; if the game
    goes on, [changeTurn], the AI's column, its drop with the new [turn],
    and either the end of the game or [changeTurn] back. *)
Definition handleMove (g : game) (col : nat) : option game :=
  match Board.addMove (board g) col (turn g) with
  | None => None
  | Some (_, b1) =>
      if game_over (Board.checkWin b1) then Some (mkGame b1 (turn g) false)
      else
        let t := changeTurn (turn g) in
        match computeMove main_ai b1 with
        | None => None
        | Some (move, b2) =>
            match Board.addMove b2 move t with
            | None => None
            | Some (_, b3) =>
                if game_over (Board.checkWin b3) then Some (mkGame b3 t false)
                else Some (mkGame b3 (changeTurn t) (playing g))
            end
        end
  end.

(** [moveButtonCallback] (main.cpp 168-177): clicks count only while
    [playing]; [col] is the button's id. *)
Definition moveButtonCallback (g : game) (col : nat) : option game :=
  if playing g then handleMove g col else Some g.

(** [resetButtonCallback] (main.cpp 179-188). *)
Definition resetButtonCallback (g : game) : game :=
  mkGame (Board.reset (board g)) PIECE_A true.

(** The page's events: a click on one of the [COLUMNS] column buttons, or
    on the reset button. *)
Inductive event := Click (col : nat) | ResetClick.

Inductive step : game -> event -> game -> Prop :=
  | step_click g col g' :
      col < COLUMNS -> moveButtonCallback g col = Some g' -> step g (Click col) g'
  | step_reset g : step g ResetClick (resetButtonCallback g).

Inductive reachable : game -> Prop :=
  | reachable_initial garbage : Board.wf garbage -> reachable (initial garbage)
  | reachable_step g e g' : reachable g -> step g e g' -> reachable g'.

(** ** Counting pieces *)

Definition count (b : Board.board) (p : piece) : nat :=
  sum_list (map (fun cells => length (filter (fun x => x = p) cells)) (Board.pieces b)).

Lemma count_setPiece b r c p q :
  Board.wf b -> r < ROWS -> c < COLUMNS ->
  count (Board.setPiece b r c q) p + (if decide (Board.getPiece b r c = p) then 1 else 0)
  = count b p + (if decide (q = p) then 1 else 0).
Proof.
  intros [Hlen Hrows] Hr Hc. unfold count, Board.setPiece, Board.getPiece; simpl.
  destruct (Board.pieces b !! r) as [cells|] eqn:E;
    [|apply lookup_ge_None in E; lia].
  pose proof (proj1 (Forall_lookup _ _) Hrows _ _ E) as Hcells. simpl in Hcells.
  destruct (cells !! c) as [x|] eqn:Ex; [|apply lookup_ge_None in Ex; lia]. simpl.
  pose proof (sum_list_alter (fun cells => length (filter (fun x => x = p) cells))
                (fun cells => <[c:=q]> cells) _ r cells E) as H1.
  pose proof (filter_eq_insert cells c x q p Ex) as H2. simpl in H1. lia.
Qed.

Lemma filter_piece_partition (l : list piece) :
  length (filter (fun z => z = PIECE_A) l) + length (filter (fun z => z = PIECE_B) l)
  + length (filter (fun z => z = PIECE_EMPTY) l) = length l.
Proof.
  induction l as [|x l IH]; [done|]. rewrite !filter_cons.
  destruct x; repeat case_decide; simpl; try congruence; lia.
Qed.

(** The [ROWS * COLUMNS] cells of a board are red, yellow or empty. *)
Lemma count_partition b :
  Board.wf b ->
  count b PIECE_A + count b PIECE_B + count b PIECE_EMPTY = ROWS * COLUMNS.
Proof.
  intros [Hlen Hrows]. unfold count. rewrite <- Hlen. clear Hlen.
  induction Hrows as [|cells rows Hc Hrows IH]; [done|].
  cbn [map sum_list length Nat.mul id].
  pose proof (filter_piece_partition cells). lia.
Qed.

Lemma count_pos b r c p :
  Board.wf b -> r < ROWS -> c < COLUMNS -> Board.getPiece b r c = p -> 1 <= count b p.
Proof.
  intros [Hlen Hrows] Hr Hc. unfold count, Board.getPiece.
  destruct (Board.pieces b !! r) as [cells|] eqn:E; [|apply lookup_ge_None in E; lia].
  pose proof (proj1 (Forall_lookup _ _) Hrows _ _ E) as Hcells. simpl in Hcells.
  destruct (cells !! c) as [x|] eqn:Ex; [|apply lookup_ge_None in Ex; lia].
  simpl. intros <-. etrans; [apply (filter_eq_pos cells c x Ex)|].
  exact (sum_list_lookup (fun cells => length (filter (fun z => z = x) cells)) _ r cells E).
Qed.

Lemma count_empty_board p : p <> PIECE_EMPTY -> count Board.empty_board p = 0.
Proof. destruct p; [done| |]; intros _; reflexivity. Qed.

(** ** The invariant of the controller *)

(** Between two clicks: the board is well formed and obeys gravity; while
    the game goes on it is red's turn on an unfinished board with as many
    red as yellow pieces; a stopped game has a finished board; red has
    never fewer pieces than yellow and at most one more. *)
Definition game_inv (g : game) : Prop :=
  Board.wf (board g) /\ Board.gravity_ok (board g) = true /\
  (playing g = true ->
     turn g = PIECE_A /\ Board.checkWin (board g) = WIN_STATE_NOT_FINISHED /\
     count (board g) PIECE_A = count (board g) PIECE_B) /\
  (playing g = false -> Board.checkWin (board g) <> WIN_STATE_NOT_FINISHED) /\
  count (board g) PIECE_B <= count (board g) PIECE_A <= S (count (board g) PIECE_B).

Lemma game_over_false w : game_over w = false <-> w = WIN_STATE_NOT_FINISHED.
Proof. destruct w; naive_solver. Qed.

Lemma game_over_true w : game_over w = true <-> w <> WIN_STATE_NOT_FINISHED.
Proof. destruct w; naive_solver. Qed.

Lemma changeTurn_A : changeTurn PIECE_A = PIECE_B.
Proof. reflexivity. Qed.

Lemma changeTurn_B : changeTurn PIECE_B = PIECE_A.
Proof. reflexivity. Qed.

(** A drop of a non-empty piece in an open column of a gravity board:
    it succeeds, keeps the board well formed and under gravity, and adds
    one piece of its colour and none of the other. *)
Lemma drop_effect b col p :
  Board.wf b -> Board.gravity_ok b = true -> col < COLUMNS -> p <> PIECE_EMPTY ->
  Board.isColumnOpen b col = true ->
  exists row b', Board.addMove b col p = Some (row, b') /\
    Board.wf b' /\ Board.gravity_ok b' = true /\ count b' p = S (count b p) /\
    (forall q, q <> p -> count b' q + (if decide (q = PIECE_EMPTY) then 1 else 0)
                         = count b q).
Proof.
  intros Hwf Hg Hc Hp Ho.
  destruct (Board.addMove_Some_of_open b col p Ho) as (row & b' & Hadd).
  exists row, b'. split; [done|].
  split_and!; [by eapply Board.addMove_wf|by eapply Board.addMove_preserves_gravity|..];
    pose proof Hadd as (Hrow & He & _ & ->)%Board.addMove_from_Some.
  - pose proof (count_setPiece b row col p p Hwf Hrow Hc) as Hcnt.
    rewrite He, decide_False, decide_True in Hcnt by done. lia.
  - intros q Hq. pose proof (count_setPiece b row col q p Hwf Hrow Hc) as Hcnt.
    rewrite He in Hcnt.
    destruct (decide (p = q)), (decide (PIECE_EMPTY = q)), (decide (q = PIECE_EMPTY));
      simplify_eq; lia.
Qed.

(** The board of an unfinished game has an empty cell in its top row. *)
Lemma not_finished_top_empty b :
  Board.checkWin b = WIN_STATE_NOT_FINISHED ->
  exists c, c < COLUMNS /\ Board.isColumnOpen b c = true.
Proof. exact (not_finished_open (B := Board.board) b). Qed.

(** The AI's reply on an unfinished board is an open column, and the
    search leaves the board as it found it. *)
Lemma ai_reply b :
  Board.checkWin b = WIN_STATE_NOT_FINISHED ->
  exists move, computeMove main_ai b = Some (move, b) /\
    move < COLUMNS /\ Board.isColumnOpen b move = true.
Proof.
  intros Hnf. exists (best_move main_ai b). split; [apply computeMove_best_move|].
  destruct (not_finished_top_empty b Hnf) as (c & Hc & Ho).
  destruct (best_move_spec main_ai b
              (open_columns_nonempty b c ltac:(by apply open_columns_iff))) as (Hin & _).
  by apply open_columns_iff in Hin.
Qed.

(** A click on an open column of a game in progress: both drops succeed,
    the invariant holds after it, and red has one more piece. *)
Lemma handleMove_spec g col :
  game_inv g -> playing g = true -> col < COLUMNS ->
  Board.isColumnOpen (board g) col = true ->
  exists g', handleMove g col = Some g' /\ game_inv g' /\
    count (board g') PIECE_A = S (count (board g) PIECE_A).
Proof.
  destruct g as [b t pl]. intros (Hwf & Hg & Hplay & _ & Hcnt) Hpl Hc Ho; simpl in *. subst pl.
  destruct (Hplay eq_refl) as (-> & Hnf & Heq).
  destruct (drop_effect b col PIECE_A Hwf Hg Hc ltac:(done) Ho)
    as (row & b1 & Hadd & Hwf1 & Hg1 & HA1 & HB1).
  specialize (HB1 PIECE_B ltac:(done)). rewrite decide_False in HB1 by done.
  unfold handleMove; simpl. rewrite Hadd.
  destruct (game_over (Board.checkWin b1)) eqn:Hover.
  { eexists. split; [done|]. split; [|done].
    split_and!; simpl; [done|done|discriminate|by intros _; apply game_over_true|lia|lia]. }
  apply game_over_false in Hover.
  destruct (ai_reply b1 Hover) as (move & Hcm & Hm & Hmo). rewrite Hcm, changeTurn_A.
  destruct (drop_effect b1 move PIECE_B Hwf1 Hg1 Hm ltac:(done) Hmo)
    as (row2 & b3 & Hadd2 & Hwf3 & Hg3 & HB3 & HA3).
  specialize (HA3 PIECE_A ltac:(done)). rewrite decide_False in HA3 by done.
  rewrite Hadd2, changeTurn_B.
  destruct (game_over (Board.checkWin b3)) eqn:Hover2;
    eexists; (split; [done|]); (split; [|simpl; lia]);
    split_and!; simpl; try done; try lia.
  - intros _. by apply game_over_true.
  - intros _. split_and!; [done|by apply game_over_false|lia].
Qed.

(** Under gravity, a click on a full column runs [addMove] past the top of
    the column. *)
Lemma handleMove_closed g col :
  Board.gravity_ok (board g) = true -> col < COLUMNS ->
  Board.isColumnOpen (board g) col = false -> handleMove g col = None.
Proof.
  intros Hg Hc Hclosed. unfold handleMove.
  by rewrite (Board.addMove_None_of_closed _ _ _ Hg Hc Hclosed).
Qed.

Lemma initial_inv b : Board.wf b -> game_inv (mkGame (Board.reset b) PIECE_A true).
Proof.
  intros Hwf. unfold game_inv; simpl. rewrite (Board.reset_is_empty b Hwf).
  rewrite !count_empty_board by done.
  split_and!; [apply Board.empty_board_wf|vm_compute; reflexivity| |discriminate|lia..].
  intros _. split_and!; [done|vm_compute; reflexivity|done].
Qed.

Lemma step_inv g e g' : game_inv g -> step g e g' -> game_inv g'.
Proof.
  intros Hinv Hstep. revert Hinv. destruct Hstep as [g0 col g1 Hc Hcb|g0]; intros Hinv.
  - unfold moveButtonCallback in Hcb. destruct (playing g0) eqn:Hpl; [|by injection Hcb as <-].
    destruct (Board.isColumnOpen (board g0) col) eqn:Ho.
    + destruct (handleMove_spec g0 col Hinv Hpl Hc Ho) as (g2 & Hh & Hinv2 & _).
      rewrite Hh in Hcb. by injection Hcb as <-.
    + destruct Hinv as (_ & Hg & _).
      rewrite (handleMove_closed g0 col Hg Hc Ho) in Hcb. discriminate.
  - destruct Hinv as [Hwf _]. unfold resetButtonCallback. by apply initial_inv.
Qed.

Lemma reachable_game_inv g : reachable g -> game_inv g.
Proof.
  induction 1 as [garbage Hwf|g e g' _ IH Hstep].
  { unfold initial, Board.Board_new. by apply initial_inv. }
  by eapply step_inv.
Qed.

(** A sequence of clicks on column buttons, each handled by
    [moveButtonCallback] in turn; [None] when one of them reaches
    undefined behaviour. *)
Fixpoint run_clicks (g : game) (cols : list nat) : option game :=
  match cols with
  | [] => Some g
  | col :: cols' =>
      match moveButtonCallback g col with
      | Some g' => run_clicks g' cols'
      | None => None
      end
  end.

Lemma run_clicks_stopped g cols g' :
  playing g = false -> run_clicks g cols = Some g' -> g' = g.
Proof.
  intros Hpl. induction cols as [|c cols IH]; simpl; [congruence|].
  unfold moveButtonCallback. by rewrite Hpl.
Qed.

(** A game played to its end: while [playing], the human clicks the column
    [strategy] picks; [fuel] bounds the number of clicks. *)
Fixpoint play (strategy : game -> nat) (fuel : nat) (g : game) : option game :=
  match fuel with
  | 0 => Some g
  | S n =>
      if playing g then
        match moveButtonCallback g (strategy g) with
        | Some g' => play strategy n g'
        | None => None
        end
      else Some g
  end.

(** While the game goes on, red has played at most 20 pieces: the 42 cells
    hold as many yellow pieces and at least one empty top cell. *)
Lemma playing_count_bound g :
  game_inv g -> playing g = true -> count (board g) PIECE_A <= 20.
Proof.
  intros (Hwf & _ & Hplay & _) Hpl. destruct (Hplay Hpl) as (_ & Hnf & Heq).
  destruct (not_finished_top_empty _ Hnf) as (c & Hc & Ho%bool_decide_eq_true_1).
  pose proof (count_pos _ 0 c _ Hwf ltac:(unfold ROWS; lia) Hc Ho).
  pose proof (count_partition _ Hwf). unfold ROWS, COLUMNS in *. lia.
Qed.

(** ** Properties of the controller *)

(** C8: every state the page can reach, from the constructor's reset of an
    arbitrary array through any clicks and resets, has a well-formed
    board obeying gravity; while [playing] it is red's turn on an
    unfinished board with as many red as yellow pieces; once it stops the
    board is finished (so [playing] holds exactly while [checkWin] reports
    [WIN_STATE_NOT_FINISHED]); and yellow has as many pieces as red, or
    one fewer. *)
Theorem reachable_invariant g :
  reachable g ->
  Board.wf (board g) /\ Board.gravity_ok (board g) = true /\
  (playing g = true ->
     turn g = PIECE_A /\ Board.checkWin (board g) = WIN_STATE_NOT_FINISHED /\
     count (board g) PIECE_A = count (board g) PIECE_B) /\
  (playing g = false -> Board.checkWin (board g) <> WIN_STATE_NOT_FINISHED) /\
  count (board g) PIECE_B <= count (board g) PIECE_A <= S (count (board g) PIECE_B).
Proof. apply reachable_game_inv. Qed.

(** C9: a click on an open column of a game in progress never reaches
    undefined behaviour: the human's drop succeeds and, when the game goes
    on, the AI's reply is an open column whose drop succeeds too; the
    click adds exactly one red piece and the invariant still holds. *)
Theorem click_plays_both_moves g col :
  game_inv g -> playing g = true -> col < COLUMNS ->
  Board.isColumnOpen (board g) col = true ->
  exists g', moveButtonCallback g col = Some g' /\ game_inv g' /\
    count (board g') PIECE_A = S (count (board g) PIECE_A).
Proof.
  intros Hinv Hpl Hc Ho. unfold moveButtonCallback. rewrite Hpl.
  by apply handleMove_spec.
Qed.

(** C10: a click on a full column of a game in progress makes [addMove]
    fall out of its loop without a [return], which is undefined
    behaviour: [moveButtonCallback] does not check [isColumnOpen]. *)
Theorem click_full_column_undefined g col :
  game_inv g -> playing g = true -> col < COLUMNS ->
  Board.isColumnOpen (board g) col = false ->
  moveButtonCallback g col = None.
Proof.
  intros (_ & Hg & _) Hpl Hc Ho. unfold moveButtonCallback. rewrite Hpl.
  by apply handleMove_closed.
Qed.

(** C11: the game ends: from a state of the invariant, a sequence of clicks
    after which the game is still in progress has at most [20] clicks, less
    the red pieces already played; a game stops after 21 clicks. *)
Theorem game_ends g cols g' :
  game_inv g -> Forall (fun col => col < COLUMNS) cols ->
  run_clicks g cols = Some g' -> playing g' = true ->
  length cols + count (board g) PIECE_A <= 20.
Proof.
  intros Hinv Hcols. revert g Hinv.
  induction Hcols as [|col cols Hc Hcols IH]; intros g Hinv Hrun Hpl'; simpl in *.
  { injection Hrun as ->. by apply playing_count_bound. }
  destruct (playing g) eqn:Hpl.
  2:{ unfold moveButtonCallback in Hrun. rewrite Hpl in Hrun.
      rewrite (run_clicks_stopped g cols g' Hpl Hrun), Hpl in Hpl'. discriminate. }
  destruct (Board.isColumnOpen (board g) col) eqn:Ho.
  - destruct (handleMove_spec g col Hinv Hpl Hc Ho) as (g1 & Hh & Hinv1 & Hcnt).
    unfold moveButtonCallback in Hrun. rewrite Hpl, Hh in Hrun.
    specialize (IH g1 Hinv1 Hrun Hpl'). lia.
  - destruct Hinv as (_ & Hg & _). unfold moveButtonCallback in Hrun.
    rewrite Hpl, (handleMove_closed g col Hg Hc Ho) in Hrun. discriminate.
Qed.

(** C26: termination.  A human who always clicks an open column plays a
    game that ends: from any state of the invariant, 21 clicks, less the
    red pieces already played, reach a stopped game, every click on the
    way handled without undefined behaviour. *)
Theorem play_terminates (strategy : game -> nat) g fuel :
  (forall g, game_inv g -> playing g = true ->
     strategy g < COLUMNS /\ Board.isColumnOpen (board g) (strategy g) = true) ->
  game_inv g -> 21 <= fuel + count (board g) PIECE_A ->
  exists g', play strategy fuel g = Some g' /\ playing g' = false /\ game_inv g'.
Proof.
  intros Hs. revert g. induction fuel as [|n IH]; intros g Hinv Hfuel; cbn [play].
  - exists g. split_and!; [done| |done]. destruct (playing g) eqn:Hpl; [|done].
    pose proof (playing_count_bound g Hinv Hpl). lia.
  - destruct (playing g) eqn:Hpl; [|by exists g].
    destruct (Hs g Hinv Hpl) as [Hc Ho].
    destruct (handleMove_spec g (strategy g) Hinv Hpl Hc Ho) as (g1 & Hh & Hinv1 & Hcnt).
    unfold moveButtonCallback. rewrite Hpl, Hh. apply IH; [done|lia].
Qed.

(** ** Witnesses *)

(** Column [0] filled from the bottom with red, yellow, red, yellow, red,
    yellow: a full column in a game still in progress. *)
Definition full_column_game : game :=
  mkGame (fold_left (fun b r => Board.setPiece b r 0 (if Nat.even r then PIECE_B else PIECE_A))
            (seq 0 ROWS) Board.empty_board)
         PIECE_A true.

Lemma full_column_game_inv : game_inv full_column_game.
Proof.
  split_and!; [split; vm_compute; [reflexivity|repeat constructor]
              |vm_compute; reflexivity| |discriminate|vm_compute; lia..].
  intros _. split_and!; [reflexivity|vm_compute; reflexivity..].
Qed.

Lemma reachable_invariant_witness :
  reachable (initial Board.empty_board) /\
  Board.gravity_ok (board (initial Board.empty_board)) = true.
Proof.
  assert (H : reachable (initial Board.empty_board))
    by (constructor; apply Board.empty_board_wf).
  split; [exact H|]. apply (reachable_invariant _ H).
Defined.

Lemma click_plays_both_moves_witness :
  exists g', moveButtonCallback (initial Board.empty_board) 3 = Some g' /\
             count (board g') PIECE_A = 1.
Proof.
  destruct (click_plays_both_moves (initial Board.empty_board) 3) as (g' & Hcb & _ & Hc);
    [exact (initial_inv _ Board.empty_board_wf)|reflexivity|unfold COLUMNS; lia
    |vm_compute; reflexivity|].
  exists g'. split; [exact Hcb|]. rewrite Hc. vm_compute. reflexivity.
Defined.

Lemma click_full_column_undefined_witness :
  moveButtonCallback full_column_game 0 = None.
Proof.
  apply click_full_column_undefined;
    [exact full_column_game_inv|reflexivity|unfold COLUMNS; lia|vm_compute; reflexivity].
Defined.

Lemma game_ends_witness :
  length (@nil nat) + count (board (initial Board.empty_board)) PIECE_A <= 20.
Proof.
  apply (game_ends (initial Board.empty_board) [] (initial Board.empty_board));
    [exact (initial_inv _ Board.empty_board_wf)|constructor|reflexivity|reflexivity].
Defined.

(** The human who clicks the first open column. *)
Definition first_open (g : game) : nat := default 0 (head (open_columns (board g))).

Lemma first_open_legal g :
  game_inv g -> playing g = true ->
  first_open g < COLUMNS /\ Board.isColumnOpen (board g) (first_open g) = true.
Proof.
  intros (_ & _ & Hplay & _) Hpl. destruct (Hplay Hpl) as (_ & Hnf & _).
  destruct (not_finished_top_empty _ Hnf) as (c & Hc & Ho).
  unfold first_open. destruct (open_columns (board g)) as [|c0 cs] eqn:E.
  - by destruct (open_columns_nonempty (board g) c ltac:(by apply open_columns_iff)).
  - cbn. exact (proj1 (open_columns_iff (B := Board.board) (board g) c0)
                  ltac:(rewrite E; set_solver)).
Qed.

Lemma play_terminates_witness :
  exists g', play first_open 21 (initial Board.empty_board) = Some g' /\ playing g' = false.
Proof.
  assert (Hinv : game_inv (initial Board.empty_board))
    by exact (initial_inv _ Board.empty_board_wf).
  destruct (play_terminates first_open _ 21 first_open_legal Hinv ltac:(lia))
    as (g' & Hp & Hpl & _).
  exact (ex_intro _ g' (conj Hp Hpl)).
Defined.

End Game.
