(* ===== verification/Page.v ===== *)
(** * The page of [src/main.cpp]

    Module [Page] models the whole of [main.cpp]: the game globals
    ([Game.game]), the DOM state the code writes (the [class] of every
    cell image, the column buttons, the text of [mainLabel], whether the
    reset button has its callback), the lines sent to [logOnline] and
    those [computeMove] sends to the console.
    Every function of the file is one definition of the same name, each
    DOM write in source order; writing through a null [HTMLElement*] is
    undefined behaviour and makes the function return [None], as a drop
    past the top of a full column does.  The page's life is the step
    relation [step]: [webMain]'s [DOMContentLoaded] callback
    [loadCallback] once, then clicks on the column buttons and on the
    reset button.  Projected on its globals, a page runs [Game]'s
    handlers (the refinement theorems below). *)

From S2P Require Import Prelude Board Interface Text Dom Heuristic Search SearchSpec Strategy Game.
From stdpp Require Import strings.
Import Board (piece(..), win_state(..), ROWS, COLUMNS).
Import Dom (images, ogrid, setImage, image_at, null_images, live).

Module Page.

(** The [int] constants of the pieces (board.h 12-14). *)
Definition piece_int (p : piece) : Z :=
  match p with PIECE_EMPTY => 0 | PIECE_A => 1 | PIECE_B => 2 end.

(** The globals of [main.cpp]: [board], [turn], [playing] as [Game.game];
    [images], [buttons] (their [id] attributes), [mainLabel] (its text)
    and [resetButton] (whether its [onclick] is set); [log] holds the
    lines sent to [logOnline] and [console] those [computeMove] sends to
    [console.log], oldest first. *)
Record page := mkPage {
  game : Game.game;
  imgs : images;
  buttons : list (option string);
  mainLabel : option string;
  resetButton : bool;
  log : list string;
  console : list string
}.

Definition set_game (p : page) (g : Game.game) : page :=
  mkPage g (imgs p) (buttons p) (mainLabel p) (resetButton p) (log p) (console p).
Definition set_imgs (p : page) (i : images) : page :=
  mkPage (game p) i (buttons p) (mainLabel p) (resetButton p) (log p) (console p).
Definition set_board (p : page) (b : Board.board) : page :=
  set_game p (Game.mkGame b (Game.turn (game p)) (Game.playing (game p))).
Definition set_turn (p : page) (t : piece) : page :=
  set_game p (Game.mkGame (Game.board (game p)) t (Game.playing (game p))).
Definition set_playing (p : page) (b : bool) : page :=
  set_game p (Game.mkGame (Game.board (game p)) (Game.turn (game p)) b).

(** Before [loadCallback]: the constructor's board, [turn = PIECE_A],
    [playing = true], every element pointer null, no log. *)
Definition initial (garbage : Board.board) : page :=
  mkPage (Game.initial garbage) null_images (replicate COLUMNS None) None false [] [].

(** ** Building the page *)

(** [createImageElement] (main.cpp 32-38): a new [<img>] of class
    ["piece blank"] stored in [images[rowNumber][colNumber]]. *)
Definition createImageElement (p : page) (rowNumber colNumber : nat) : page :=
  set_imgs p (setImage (imgs p) rowNumber colNumber (Some "piece blank")).

(** [createImageRow] (main.cpp 40-54). *)
Definition createImageRow (p : page) (rowNumber : nat) : page :=
  fold_left (fun p i => createImageElement p rowNumber i) (seq 0 COLUMNS) p.

(** [createTable] (main.cpp 56-67). *)
Definition createTable (p : page) : page :=
  fold_left createImageRow (seq 0 ROWS) p.

(** [setMoveButtonCallbacks] (main.cpp 190-198): [buttons[i]] is the
    element of id [std::to_string(i)], its [onclick] the move callback. *)
Definition setMoveButtonCallbacks (p : page) : page :=
  fold_left (fun p i =>
    mkPage (game p) (imgs p) (<[i := Some (to_string (Z.of_nat i))]> (buttons p))
           (mainLabel p) (resetButton p) (log p) (console p))
    (seq 0 COLUMNS) p.

(** [loadOtherElements] (main.cpp 200-205): [mainLabel] is the page's
    element [main-label], whose text is [html_label]; the reset button
    gets its callback. *)
Definition loadOtherElements (p : page) (html_label : string) : page :=
  mkPage (game p) (imgs p) (buttons p) (Some html_label) true (log p) (console p).

(** [logOnline] (declared main.cpp 11-14). *)
Definition logOnline (p : page) (str : string) : page :=
  mkPage (game p) (imgs p) (buttons p) (mainLabel p) (resetButton p) (log p ++ [str]) (console p).

(** [console.log] of the lines [computeMove] prints (ai.h 36). *)
Definition console_log (p : page) (lines : list string) : page :=
  mkPage (game p) (imgs p) (buttons p) (mainLabel p) (resetButton p) (log p) (console p ++ lines).

(** [loadCallback] (main.cpp 207-215). *)
Definition loadCallback (p : page) (html_label : string) : page :=
  logOnline (loadOtherElements (setMoveButtonCallbacks (createTable p)) html_label)
            "Game Loaded".

(** ** Showing the game *)

(** [images[r][c]->setAttribute("class", cls)]: undefined on a null
    pointer. *)
Definition setClass (p : page) (r c : nat) (cls : string) : option page :=
  match image_at (imgs p) r c with
  | Some (Some _) => Some (set_imgs p (setImage (imgs p) r c (Some cls)))
  | _ => None
  end.

(** The body of [updateBoard]'s loops (main.cpp 75-81). *)
Definition updateCell (p : page) (r c : nat) : option page :=
  let piece := Board.getPiece (Game.board (game p)) r c in
  if decide (piece = PIECE_EMPTY) then setClass p r c "piece blank"
  else if decide (piece = PIECE_A) then setClass p r c "piece red"
  else if decide (piece = PIECE_B) then setClass p r c "piece black"
  else Some p.

(** [updateBoard] (main.cpp 69-84). *)
Definition updateBoard (p : page) : option page :=
  for_each (seq 0 ROWS) (fun r p => for_each (seq 0 COLUMNS) (fun c p => updateCell p r c) p) p.

(** [setLabelText] (main.cpp 86-89): undefined on a null [mainLabel]. *)
Definition setLabelText (p : page) (str : string) : option page :=
  match mainLabel p with
  | Some _ => Some (mkPage (game p) (imgs p) (buttons p) (Some str) (resetButton p) (log p) (console p))
  | None => None
  end.

(** [changeTurn] (main.cpp 93-105). *)
Definition changeTurn (p : page) : option page :=
  if decide (Game.turn (game p) = PIECE_A)
  then setLabelText (set_turn p PIECE_B) "Black's Turn"
  else setLabelText (set_turn p PIECE_A) "Red's Turn".

(** The line [handleMove] logs after a drop (main.cpp 112 and 140). *)
Definition move_line (col row : nat) (turn : piece) : string :=
  "Col " +:+ to_string (Z.of_nat col) +:+ " Row " +:+ to_string (Z.of_nat row)
  +:+ " Turn " +:+ to_string (piece_int turn).

(** An outcome: the label, the same log line, [playing = false]. *)
Definition finish (p : page) (msg : string) : option page :=
  p1 ← setLabelText p msg; Some (set_playing (logOnline p1 msg) false).

(** The [if]/[else if] chain on [winState] (main.cpp 115-133 and
    143-164); [k] is the [else] branch. *)
Definition report (winState : win_state) (p : page) (k : page -> option page) : option page :=
  match winState with
  | WIN_STATE_DRAW => finish p "Its a draw"
  | WIN_STATE_A => finish p "Red wins"
  | WIN_STATE_B => finish p "Black wins"
  | WIN_STATE_NOT_FINISHED => k p
  end.

(** [handleMove] (main.cpp 107-166).  The second log line prints [col],
    the human's column, as the source does; [computeMove] prints its
    console lines before the AI's drop. *)
Definition handleMove (p : page) (col : nat) : option page :=
  '(row, b1) ← Board.addMove (Game.board (game p)) col (Game.turn (game p));
  p1 ← updateBoard (set_board p b1);
  let p2 := logOnline p1 (move_line col row (Game.turn (game p1))) in
  report (Board.checkWin (Game.board (game p2))) p2 (fun p3 =>
    p4 ← changeTurn p3;
    '((move, lines), b2) ← computeMove_log main_ai (Game.board (game p4));
    let p4' := console_log p4 lines in
    '(row', b3) ← Board.addMove b2 move (Game.turn (game p4'));
    p5 ← updateBoard (set_board p4' b3);
    let p6 := logOnline p5 (move_line col row' (Game.turn (game p5))) in
    report (Board.checkWin (Game.board (game p6))) p6 changeTurn).

(** [moveButtonCallback] (main.cpp 168-177): the column is [atoi] of the
    clicked button's [id]; a negative column indexes before the array,
    undefined behaviour. *)
Definition moveButtonCallback (p : page) (id : string) : option page :=
  if Game.playing (game p) then
    let col := atoi id in
    if decide (0 <= col)%Z then handleMove p (Z.to_nat col) else None
  else Some p.

(** [resetButtonCallback] (main.cpp 179-188). *)
Definition resetButtonCallback (p : page) : option page :=
  p1 ← updateBoard (set_board p (Board.reset (Game.board (game p))));
  p2 ← setLabelText (set_playing (set_turn p1 PIECE_A) true) "Red's Turn";
  Some (logOnline p2 "Game Reset").

(** ** The page's life *)

(** The events after [loadCallback]: a click on the button stored in
    [buttons[i]], a click on the reset button. *)
Inductive event := ButtonClick (i : nat) | ResetClick.

Inductive step : page -> event -> page -> Prop :=
  | step_button p i id p' :
      buttons p !! i = Some (Some id) -> moveButtonCallback p id = Some p' ->
      step p (ButtonClick i) p'
  | step_reset p p' :
      resetButton p = true -> resetButtonCallback p = Some p' -> step p ResetClick p'.

(** [webMain] (main.cpp 217-220) registers [loadCallback] for
    [DOMContentLoaded]: it runs once, on the globals' initial values. *)
Inductive reachable : page -> Prop :=
  | reachable_load garbage html_label :
      Board.wf garbage -> reachable (loadCallback (initial garbage) html_label)
  | reachable_step p e p' : reachable p -> step p e p' -> reachable p'.

(** ** What the page shows *)

(** The class [updateBoard] gives the image of a cell holding [p]. *)
Definition class_of (p : piece) : string :=
  match p with
  | PIECE_EMPTY => "piece blank"
  | PIECE_A => "piece red"
  | PIECE_B => "piece black"
  end.

(** The grid that shows board [b]. *)
Definition render (b : Board.board) : images :=
  ogrid (fun r c => Some (class_of (Board.getPiece b r c))).

(** The label [changeTurn] sets for the player to move. *)
Definition turn_text (t : piece) : string :=
  if decide (t = PIECE_B) then "Black's Turn" else "Red's Turn".

(** The label and log line of an outcome. *)
Definition outcome_text (w : win_state) : option string :=
  match w with
  | WIN_STATE_DRAW => Some "Its a draw"
  | WIN_STATE_A => Some "Red wins"
  | WIN_STATE_B => Some "Black wins"
  | WIN_STATE_NOT_FINISHED => None
  end.

(** The label a handler leaves: whose turn it is, or how the game ended. *)
Definition status_text (g : Game.game) : option string :=
  if Game.playing g then Some (turn_text (Game.turn g))
  else outcome_text (Board.checkWin (Game.board g)).

(** The DOM elements the handlers write exist. *)
Definition dom_ok (p : page) : Prop := live (imgs p) /\ is_Some (mainLabel p).

(** ** [updateBoard] *)

Lemma setClass_live p r c cls :
  live (imgs p) -> r < ROWS -> c < COLUMNS ->
  setClass p r c cls = Some (set_imgs p (setImage (imgs p) r c (Some cls))).
Proof.
  intros Hl Hr Hc. unfold setClass.
  by destruct (Dom.live_image_at _ r c Hl Hr Hc) as [s ->].
Qed.

Lemma updateCell_live p r c :
  live (imgs p) -> r < ROWS -> c < COLUMNS ->
  updateCell p r c = Some (set_imgs p (setImage (imgs p) r c
                       (Some (class_of (Board.getPiece (Game.board (game p)) r c))))).
Proof.
  intros Hl Hr Hc. unfold updateCell.
  destruct (Board.getPiece _ r c); cbn [class_of]; rewrite ?decide_True, ?decide_False
    by done; by apply setClass_live.
Qed.

(** The inner loop of [updateBoard] on row [r]. *)
Lemma updateRow_live p r cs :
  live (imgs p) -> r < ROWS -> Forall (fun c => c < COLUMNS) cs ->
  for_each cs (fun c p => updateCell p r c) p =
  Some (set_imgs p (fold_left (fun i c => setImage i r c
          (Some (class_of (Board.getPiece (Game.board (game p)) r c)))) cs (imgs p))).
Proof.
  intros Hl Hr Hcs. revert p Hl. induction Hcs as [|c cs Hc Hcs IH]; intros p Hl.
  - by destruct p.
  - cbn [for_each fold_left]. rewrite updateCell_live by done. cbn [mbind option_bind].
    rewrite IH by (by apply Dom.setImage_live). by destruct p.
Qed.

(** On a page whose images all exist, [updateBoard] succeeds and makes
    the grid show the board. *)
Lemma updateBoard_live p :
  live (imgs p) -> updateBoard p = Some (set_imgs p (render (Game.board (game p)))).
Proof.
  intros Hl. set (b := Game.board (game p)).
  assert (Hloop : forall rs q, live (imgs q) -> Game.board (game q) = b ->
    Forall (fun r => r < ROWS) rs ->
    for_each rs (fun r p => for_each (seq 0 COLUMNS) (fun c p => updateCell p r c) p) q =
    Some (set_imgs q (fold_left (fun i r => fold_left (fun i c => setImage i r c
            (Some (class_of (Board.getPiece b r c)))) (seq 0 COLUMNS) i) rs (imgs q)))).
  { intros rs. induction rs as [|r rs IH]; intros q Hq Hb Hrs; [by destruct q|].
    apply Forall_cons in Hrs as [Hr Hrs]. cbn [for_each fold_left].
    rewrite updateRow_live, Hb by (done || apply Forall_seq; lia). cbn [mbind option_bind].
    rewrite IH; [by destruct q|..|done|done].
    apply Dom.fold_setImage_live; [done|done|apply Forall_seq; lia]. }
  unfold updateBoard. rewrite Hloop by (done || apply Forall_seq; lia). do 2 f_equal.
  destruct Hl as (f & -> & _). rewrite Dom.fold_setImage_rows by (apply Forall_seq; lia).
  apply Dom.ogrid_ext. intros r c Hr _. rewrite decide_True; [done|apply elem_of_seq; lia].
Qed.

Lemma render_live b : live (render b).
Proof. apply Dom.ogrid_live. Qed.

Lemma updateBoard_set_board p b :
  live (imgs p) -> updateBoard (set_board p b) = Some (set_imgs (set_board p b) (render b)).
Proof. intros Hl. by apply updateBoard_live. Qed.

(** ** Labels and outcomes *)

Lemma setLabelText_ok p str :
  is_Some (mainLabel p) ->
  setLabelText p str = Some (mkPage (game p) (imgs p) (buttons p) (Some str) (resetButton p) (log p)
                              (console p)).
Proof. unfold setLabelText. by intros [? ->]. Qed.

Lemma changeTurn_ok p :
  is_Some (mainLabel p) ->
  changeTurn p = Some (mkPage (Game.mkGame (Game.board (game p)) (Game.changeTurn (Game.turn (game p)))
                                (Game.playing (game p)))
                      (imgs p) (buttons p) (Some (turn_text (Game.changeTurn (Game.turn (game p)))))
                      (resetButton p) (log p) (console p)).
Proof.
  intros Hl. unfold changeTurn, Game.changeTurn, turn_text.
  case_decide; rewrite setLabelText_ok by done; [done|].
  rewrite decide_False by done. done.
Qed.

Lemma report_over w p k msg :
  outcome_text w = Some msg -> is_Some (mainLabel p) ->
  report w p k = Some (mkPage (Game.mkGame (Game.board (game p)) (Game.turn (game p)) false)
                        (imgs p) (buttons p) (Some msg) (resetButton p) (log p ++ [msg])
                        (console p)).
Proof.
  intros Hw Hl.
  destruct w; cbn [outcome_text] in Hw; simplify_eq; cbn [report]; unfold finish;
    by rewrite setLabelText_ok.
Qed.

Lemma outcome_text_over w : Game.game_over w = true -> is_Some (outcome_text w).
Proof. destruct w; done. Qed.

(** ** [handleMove] refines [Game.handleMove] *)

Ltac page_simpl :=
  cbn [logOnline set_imgs set_board set_turn set_playing set_game game imgs buttons
       mainLabel resetButton log console console_log Game.board Game.turn Game.playing mbind option_bind] in *.

(** The lines a click during play sends to [logOnline], read off the
    globals: the human's drop, then the outcome, or the AI's drop and, if
    the game ends, the outcome. *)
Definition handleMove_lines (g : Game.game) (col : nat) : list string :=
  match Board.addMove (Game.board g) col (Game.turn g) with
  | None => []
  | Some (row, b1) =>
      move_line col row (Game.turn g) ::
      match outcome_text (Board.checkWin b1) with
      | Some msg => [msg]
      | None =>
          match computeMove main_ai b1 with
          | None => []
          | Some (move, b2) =>
              match Board.addMove b2 move (Game.changeTurn (Game.turn g)) with
              | None => []
              | Some (row', b3) =>
                  move_line col row' (Game.changeTurn (Game.turn g)) ::
                  from_option (fun msg => [msg]) [] (outcome_text (Board.checkWin b3))
              end
          end
      end
  end.

(** The lines a click during play sends to the console: those of
    [computeMove], when the human's drop leaves the game unfinished. *)
Definition handleMove_console (g : Game.game) (col : nat) : list string :=
  match Board.addMove (Game.board g) col (Game.turn g) with
  | None => []
  | Some (_, b1) =>
      if Game.game_over (Board.checkWin b1) then []
      else match computeMove_log main_ai b1 with
           | Some ((_, lines), _) => lines
           | None => []
           end
  end.

(** On a page whose elements exist, during play ([moveButtonCallback]
    calls [handleMove] only then), [handleMove] does to the globals what
    [Game.handleMove] does, fails exactly when it does, redraws the grid
    for the new board, leaves the status of the game in the label and
    logs [handleMove_lines]. *)
Lemma handleMove_refines p col :
  dom_ok p -> Game.playing (game p) = true ->
  match Game.handleMove (game p) col with
  | None => handleMove p col = None
  | Some g' => handleMove p col =
      Some (mkPage g' (render (Game.board g')) (buttons p) (status_text g')
                   (resetButton p) (log p ++ handleMove_lines (game p) col)
                   (console p ++ handleMove_console (game p) col))
  end.
Proof.
  destruct p as [[b t pl] i bs lab rb lg con]. intros [Hl Hlab] Hpl. page_simpl. subst pl.
  unfold handleMove, Game.handleMove, handleMove_lines, handleMove_console. page_simpl.
  destruct (Board.addMove b col t) as [[row b1]|]; [|done]. page_simpl.
  rewrite updateBoard_set_board by first [exact Hl|apply render_live]. page_simpl.
  destruct (Game.game_over (Board.checkWin b1)) eqn:Hover.
  { destruct (outcome_text_over _ Hover) as [msg Hmsg].
    rewrite (report_over _ _ _ msg) by done. unfold status_text. page_simpl.
    by rewrite Hmsg, <- app_assoc, app_nil_r. }
  apply Game.game_over_false in Hover. rewrite Hover. cbn [report outcome_text].
  rewrite changeTurn_ok by done. page_simpl.
  rewrite computeMove_of_log.
  destruct (computeMove_log main_ai b1) as [[[move lines] b2]|]; [|done]. page_simpl.
  destruct (Board.addMove b2 move (Game.changeTurn t)) as [[row' b3]|]; [|done].
  page_simpl. rewrite updateBoard_set_board by first [exact Hl|apply render_live]. page_simpl.
  destruct (Game.game_over (Board.checkWin b3)) eqn:Hover2.
  { destruct (outcome_text_over _ Hover2) as [msg Hmsg].
    rewrite (report_over _ _ _ msg) by done. unfold status_text. page_simpl.
    rewrite Hmsg, <- !app_assoc. done. }
  apply Game.game_over_false in Hover2. rewrite Hover2. cbn [report outcome_text from_option].
  rewrite changeTurn_ok by done. unfold status_text. page_simpl.
  rewrite <- !app_assoc. reflexivity.
Qed.

(** ** Reset and load *)

Lemma resetButtonCallback_ok p :
  dom_ok p ->
  resetButtonCallback p =
  Some (mkPage (Game.resetButtonCallback (game p))
               (render (Game.board (Game.resetButtonCallback (game p))))
               (buttons p) (status_text (Game.resetButtonCallback (game p)))
               (resetButton p) (log p ++ ["Game Reset"]) (console p)).
Proof.
  destruct p as [[b t pl] i bs lab rb lg con]. intros [Hl Hlab]. page_simpl.
  unfold resetButtonCallback. page_simpl.
  rewrite updateBoard_set_board by exact Hl. page_simpl.
  by rewrite setLabelText_ok.
Qed.

(** The ids [setMoveButtonCallbacks] gives the buttons. *)
Definition button_ids : list (option string) :=
  (fun i => Some (to_string (Z.of_nat i))) <$> seq 0 COLUMNS.

Lemma createImageRow_imgs p r :
  imgs (createImageRow p r) =
  fold_left (fun i c => setImage i r c (Some "piece blank")) (seq 0 COLUMNS) (imgs p).
Proof.
  unfold createImageRow. generalize (seq 0 COLUMNS). intros cs. revert p.
  induction cs as [|c cs IH]; intros p; [done|]. cbn [fold_left]. by rewrite IH.
Qed.

Lemma createTable_imgs p :
  imgs (createTable p) =
  fold_left (fun i r => fold_left (fun i c => setImage i r c (Some "piece blank"))
                          (seq 0 COLUMNS) i) (seq 0 ROWS) (imgs p).
Proof.
  unfold createTable. generalize (seq 0 ROWS). intros rs. revert p.
  induction rs as [|r rs IH]; intros p; [done|]. cbn [fold_left].
  by rewrite IH, createImageRow_imgs.
Qed.

(** [loadCallback] on the initial globals: every image exists and shows
    the constructor's (empty) board, the buttons are named [0] to [6], the
    label is the page's own text. *)
Lemma loadCallback_initial garbage html_label :
  Board.wf garbage ->
  loadCallback (initial garbage) html_label =
  mkPage (Game.initial garbage) (render (Game.board (Game.initial garbage))) button_ids
         (Some html_label) true ["Game Loaded"] [].
Proof.
  intros Hwf. unfold loadCallback.
  set (p0 := setMoveButtonCallbacks (createTable (initial garbage))).
  assert (Hg : game p0 = Game.initial garbage).
  { subst p0. unfold setMoveButtonCallbacks. apply fold_left_invariant; [done|].
    unfold createTable. apply fold_left_invariant; [|done].
    intros q r <-. unfold createImageRow. by apply fold_left_invariant. }
  assert (Hi : imgs p0 = imgs (createTable (initial garbage))).
  { subst p0. unfold setMoveButtonCallbacks. by apply fold_left_invariant. }
  assert (Hb : buttons p0 = button_ids) by reflexivity.
  assert (Hlog : log p0 = []).
  { subst p0. unfold setMoveButtonCallbacks. apply fold_left_invariant; [done|].
    unfold createTable. apply fold_left_invariant; [|done].
    intros q r Hq. unfold createImageRow. by apply fold_left_invariant. }
  unfold loadOtherElements, logOnline. cbn [game imgs buttons log]. rewrite Hg, Hi, Hb, Hlog.
  f_equal. rewrite createTable_imgs. cbn [imgs initial].
  rewrite Dom.null_images_ogrid, Dom.fold_setImage_rows by (apply Forall_seq; lia).
  unfold render. apply Dom.ogrid_ext. intros r c Hr _.
  unfold Game.initial, Board.Board_new. cbn [Game.board].
  rewrite Board.reset_is_empty, Board.getPiece_empty_board by done.
  rewrite decide_True; [done|apply elem_of_seq; lia].
Qed.

(** ** The invariant of the page *)

(** Between events: the globals satisfy [Game.game_inv]; the images show
    the board; the buttons are named [0] to [6]; the reset button and the
    label exist; a stopped game's label tells how it ended. *)
Definition page_inv (p : page) : Prop :=
  Game.game_inv (game p) /\ imgs p = render (Game.board (game p)) /\
  buttons p = button_ids /\ resetButton p = true /\ is_Some (mainLabel p) /\
  (Game.playing (game p) = false -> mainLabel p = status_text (game p)).

(** The event of [Game] a page event runs. *)
Definition game_event (e : event) : Game.event :=
  match e with ButtonClick i => Game.Click i | ResetClick => Game.ResetClick end.

Lemma status_text_some g : Game.game_inv g -> is_Some (status_text g).
Proof.
  intros (_ & _ & _ & Hstop & _). unfold status_text.
  destruct (Game.playing g); [by eexists|].
  specialize (Hstop eq_refl). by destruct (Board.checkWin (Game.board g)).
Qed.

Lemma page_inv_dom p : page_inv p -> dom_ok p.
Proof. intros (_ & Himg & _ & _ & Hl & _). split; [rewrite Himg; apply render_live|done]. Qed.

Lemma button_ids_lookup i id :
  button_ids !! i = Some (Some id) -> i < COLUMNS /\ id = to_string (Z.of_nat i).
Proof.
  unfold button_ids. rewrite (lookup_fmap_seq0 (A := option string)).
  case_decide; naive_solver.
Qed.

Lemma initial_page_inv garbage html_label :
  Board.wf garbage -> page_inv (loadCallback (initial garbage) html_label).
Proof.
  intros Hwf. rewrite loadCallback_initial by done.
  cbn [game imgs buttons resetButton mainLabel]. unfold Game.initial, Board.Board_new.
  split_and!; [by apply Game.initial_inv|done..|by eexists|discriminate].
Qed.

(** Every page event runs the [Game] event of the same button on the
    globals, keeps the invariant and leaves the status of the game in the
    label. *)
Lemma step_refines p e p' :
  page_inv p -> step p e p' ->
  Game.step (game p) (game_event e) (game p') /\ page_inv p' /\
  mainLabel p' = status_text (game p').
Proof.
  intros Hinv Hstep. pose proof (page_inv_dom p Hinv) as Hdom.
  destruct Hinv as (Hg & Himg & Hbut & Hrb & Hlab & Hstop).
  destruct Hstep as [p i id p' Hid Hcb|p p' _ Hcb].
  - rewrite Hbut in Hid. apply button_ids_lookup in Hid as [Hi ->].
    unfold moveButtonCallback in Hcb. cbn [game_event].
    destruct (Game.playing (game p)) eqn:Hpl.
    + rewrite atoi_to_string, decide_True, Nat2Z.id in Hcb by lia.
      pose proof (handleMove_refines p i Hdom Hpl) as Href.
      destruct (Game.handleMove (game p) i) as [g'|] eqn:Hh; [|congruence].
      rewrite Href in Hcb. injection Hcb as <-.
      assert (Hs : Game.step (game p) (Game.Click i) g').
      { constructor; [done|]. unfold Game.moveButtonCallback. by rewrite Hpl. }
      pose proof (Game.step_inv _ _ _ Hg Hs) as Hg'.
      split; [done|]. split; [|done].
      split_and!; first [done|by apply status_text_some].
    + injection Hcb as <-.
      split; [|split; [split_and!; try done; intros _; by apply Hstop|by apply Hstop]].
      constructor; [done|]. unfold Game.moveButtonCallback. by rewrite Hpl.
  - rewrite (resetButtonCallback_ok p Hdom) in Hcb. injection Hcb as <-.
    assert (Hs : Game.step (game p) Game.ResetClick (Game.resetButtonCallback (game p)))
      by constructor.
    pose proof (Game.step_inv _ _ _ Hg Hs) as Hg'.
    split; [done|]. split; [|done]. split_and!; first [done|by apply status_text_some].
Qed.

Lemma reachable_page_inv p : reachable p -> page_inv p.
Proof.
  induction 1 as [garbage l Hwf|p e p' _ IH Hstep]; [by apply initial_page_inv|].
  by destruct (step_refines p e p' IH Hstep) as (_ & ? & _).
Qed.

(** ** Properties of the page *)

(** C20: refinement.  Projected on its globals [board], [turn] and
    [playing], every state the page reaches (from [loadCallback] on the
    constructor's board, through button clicks and resets, every DOM
    write and log line included) is a state [Game] reaches: the
    controller's theorems hold of the page. *)
Theorem reachable_refines p : reachable p -> Game.reachable (game p).
Proof.
  induction 1 as [garbage l Hwf|p e p' Hr IH Hstep].
  - rewrite loadCallback_initial by done. by constructor.
  - destruct (step_refines p e p' (reachable_page_inv p Hr) Hstep) as (Hs & _).
    by eapply Game.reachable_step.
Qed.

(** C21: what the page shows.  On every reachable page each cell image
    exists and its class shows the piece of the board's cell
    (["piece blank"], ["piece red"] or ["piece black"]), and once the game
    has stopped the label tells how it ended ([Its a draw], [Red wins] or
    [Black wins]). *)
Theorem reachable_display p :
  reachable p ->
  imgs p = render (Game.board (game p)) /\
  (Game.playing (game p) = false ->
     mainLabel p = outcome_text (Board.checkWin (Game.board (game p))) /\
     mainLabel p <> None).
Proof.
  intros Hr. destruct (reachable_page_inv p Hr) as (Hg & Himg & _ & _ & [l Hl] & Hstop).
  split; [done|]. intros Hpl. pose proof (Hstop Hpl) as Hs.
  unfold status_text in Hs. rewrite Hpl in Hs. split; [exact Hs|by rewrite Hl].
Qed.

(** C22: the label after an event.  After every click and every reset on
    a reachable page the label tells whose turn it is ([Red's Turn] while
    the game goes on) or how the game ended. *)
Theorem event_label p e p' :
  reachable p -> step p e p' -> mainLabel p' = status_text (game p').
Proof.
  intros Hr Hstep. by destruct (step_refines p e p' (reachable_page_inv p Hr) Hstep)
    as (_ & _ & ?).
Qed.

(** C23: round trip of the button ids.  On every reachable page the
    button stored in [buttons[i]] has an id from which [atoi] recovers
    [i], a column: a click on it plays column [i]. *)
Theorem button_column_roundtrip p i id :
  reachable p -> buttons p !! i = Some (Some id) ->
  i < COLUMNS /\ atoi id = Z.of_nat i.
Proof.
  intros Hr Hid. destruct (reachable_page_inv p Hr) as (_ & _ & Hbut & _).
  rewrite Hbut in Hid. apply button_ids_lookup in Hid as [Hi ->].
  split; [done|apply atoi_to_string].
Qed.

(** C24: the AI's move is logged with the human's column.  When the
    human's drop in [col] leaves the game unfinished, [handleMove] logs
    two lines: the human's drop, then [Col col Row row' Turn 2] where
    [row'] is the row of the AI's piece, which lies in the column [move]
    of [computeMove], not in [col]: main.cpp 140 prints [col] where it
    means [move]. *)
Theorem ai_reply_logged_with_human_column p col row b1 :
  dom_ok p -> Game.game_inv (game p) -> Game.playing (game p) = true ->
  Board.addMove (Game.board (game p)) col PIECE_A = Some (row, b1) ->
  Board.checkWin b1 = WIN_STATE_NOT_FINISHED ->
  exists move row' p' rest,
    computeMove main_ai b1 = Some (move, b1) /\ handleMove p col = Some p' /\
    Board.getPiece (Game.board (game p')) row' move = PIECE_B /\
    log p' = log p ++ [move_line col row PIECE_A; move_line col row' PIECE_B] ++ rest.
Proof.
  intros Hdom Hg Hpl Hadd Hnf.
  destruct Hg as (Hwf & Hgr & Hplay & _). destruct (Hplay Hpl) as (Hturn & _).
  destruct (Game.ai_reply b1 Hnf) as (move & Hcm & Hm & Hmo).
  pose proof (Board.addMove_wf _ _ _ _ _ Hwf Hadd) as Hwf1.
  pose proof (Board.addMove_preserves_gravity _ _ PIECE_A _ _ Hwf Hgr ltac:(done) Hadd) as Hg1.
  destruct (Game.drop_effect b1 move PIECE_B Hwf1 Hg1 Hm ltac:(done) Hmo)
    as (row' & b3 & Hadd2 & _).
  pose proof Hadd2 as (Hrow' & _ & _ & ->)%Board.addMove_from_Some.
  pose proof (handleMove_refines p col Hdom Hpl) as Href.
  unfold Game.handleMove in Href. rewrite Hturn, Hadd, Hnf, Hcm, Game.changeTurn_A, Hadd2 in Href.
  cbn [Game.game_over] in Href.
  destruct (Game.game_over _) in Href;
    (do 3 eexists; exists (from_option (fun msg => [msg]) [] (outcome_text
       (Board.checkWin (Board.setPiece b1 row' move PIECE_B)))); split_and!;
     [exact Hcm|exact Href|cbn [game Game.board]; by apply Board.getPiece_setPiece_same|]);
    cbn [log]; unfold handleMove_lines; rewrite Hturn, Hadd, Hnf; cbn [outcome_text];
    rewrite Hcm, Game.changeTurn_A, Hadd2; done.
Qed.

(** C25: no undefined behaviour but the full column.  On every reachable
    page the reset button always works, and a click on a column button
    runs without writing through a null pointer or dropping past the top
    of a column, unless the game is in progress and the column is full. *)
Theorem reachable_events_defined p :
  reachable p ->
  (exists p', step p ResetClick p') /\
  (forall i, i < COLUMNS ->
     Game.playing (game p) = false \/ Board.isColumnOpen (Game.board (game p)) i = true ->
     exists p', step p (ButtonClick i) p').
Proof.
  intros Hr. pose proof (reachable_page_inv p Hr) as Hinv.
  pose proof (page_inv_dom p Hinv) as Hdom.
  destruct Hinv as (Hg & _ & Hbut & Hrb & _).
  split; [eexists; constructor; [done|by apply resetButtonCallback_ok]|].
  intros i Hi Hcase.
  assert (Hid : buttons p !! i = Some (Some (to_string (Z.of_nat i)))).
  { rewrite Hbut. unfold button_ids.
    by rewrite (lookup_fmap_seq0 (A := option string)), decide_True. }
  destruct (Game.playing (game p)) eqn:Hpl.
  2:{ eexists. eapply step_button; [exact Hid|]. unfold moveButtonCallback. by rewrite Hpl. }
  destruct Hcase as [|Ho]; [congruence|].
  destruct (Game.handleMove_spec (game p) i Hg Hpl Hi Ho) as (g' & Hh & _).
  pose proof (handleMove_refines p i Hdom Hpl) as Href. rewrite Hh in Href.
  eexists. eapply step_button; [exact Hid|]. unfold moveButtonCallback.
  rewrite Hpl, atoi_to_string, decide_True, Nat2Z.id by lia. exact Href.
Qed.

(** C36: The console.  Only [computeMove] writes to the console: a reset,
    or a click once the game has stopped, leaves it as it was; a click on
    column [i] during play appends, when the human's drop leaves the game
    unfinished, one line [Col c Value v] per open column [c] of the board
    after that drop, in ascending order, [v] being the value the search
    gives [c], and nothing when the drop ends the game. *)
Theorem reachable_console p e p' :
  reachable p -> step p e p' ->
  console p' = console p ++
    match e with
    | ResetClick => []
    | ButtonClick i =>
        if Game.playing (game p) then
          match Board.addMove (Game.board (game p)) i PIECE_A with
          | Some (_, b1) =>
              if decide (Board.checkWin b1 = WIN_STATE_NOT_FINISHED)
              then console_lines main_ai b1 else []
          | None => []
          end
        else []
    end.
Proof.
  intros Hr Hstep. pose proof (reachable_page_inv p Hr) as Hinv.
  pose proof (page_inv_dom p Hinv) as Hdom.
  destruct Hinv as ((_ & _ & Hplay & _) & _ & Hbut & _).
  destruct Hstep as [p i id p' Hid Hcb|p p' _ Hcb].
  - rewrite Hbut in Hid. apply button_ids_lookup in Hid as [Hi ->].
    unfold moveButtonCallback in Hcb. destruct (Game.playing (game p)) eqn:Hpl.
    2:{ injection Hcb as <-. by rewrite app_nil_r. }
    rewrite atoi_to_string, decide_True, Nat2Z.id in Hcb by lia.
    pose proof (handleMove_refines p i Hdom Hpl) as Href.
    destruct (Game.handleMove (game p) i) as [g'|]; [|congruence].
    rewrite Href in Hcb. injection Hcb as <-. cbn [console]. f_equal.
    destruct (Hplay eq_refl) as (Hturn & _). unfold handleMove_console. rewrite Hturn.
    destruct (Board.addMove _ i PIECE_A) as [[row b1]|]; [|done].
    case_decide as Hnf.
    + rewrite Hnf. cbn [Game.game_over]. unfold computeMove_log.
      by rewrite computeMove_columns_spec.
    + by apply Game.game_over_true in Hnf as ->.
  - rewrite (resetButtonCallback_ok p Hdom) in Hcb. injection Hcb as <-.
    by rewrite app_nil_r.
Qed.

(** ** Witnesses *)

(** The page after [loadCallback], on an empty array. *)
Definition loaded_page : page := loadCallback (initial Board.empty_board) "Red's Turn".

Lemma loaded_page_reachable : reachable loaded_page.
Proof. constructor. apply Board.empty_board_wf. Qed.

Definition reset_page : page := default loaded_page (resetButtonCallback loaded_page).

(** Red holds row 4 and yellow row 5 of columns 0-2; red to move. *)
Definition log_board : Board.board :=
  fold_left (fun b c => Board.setPiece (Board.setPiece b 5 c PIECE_B) 4 c PIECE_A)
            [0; 1; 2] Board.empty_board.

Definition log_page : page :=
  mkPage (Game.mkGame log_board PIECE_A true) (render log_board) button_ids
         (Some "Red's Turn") true [] [].

Lemma reachable_refines_witness : Game.reachable (game loaded_page).
Proof. apply reachable_refines, loaded_page_reachable. Defined.

Lemma reachable_display_witness :
  imgs loaded_page = render (Game.board (game loaded_page)).
Proof. apply (reachable_display loaded_page loaded_page_reachable). Defined.

Lemma event_label_witness :
  step loaded_page ResetClick reset_page /\ mainLabel reset_page = Some "Red's Turn".
Proof.
  assert (Hs : step loaded_page ResetClick reset_page)
    by (constructor; [reflexivity|vm_compute; reflexivity]).
  split; [exact Hs|]. rewrite (event_label _ _ _ loaded_page_reachable Hs).
  vm_compute. reflexivity.
Defined.

Lemma button_column_roundtrip_witness : 3 < COLUMNS /\ atoi "3" = 3%Z.
Proof.
  apply (button_column_roundtrip loaded_page 3 "3" loaded_page_reachable).
  vm_compute. reflexivity.
Defined.

(** The human plays column 6; the AI wins in column 3; the log names
    column 6 for both drops. *)
Lemma ai_reply_logged_with_human_column_witness :
  exists row' p' rest,
    handleMove log_page 6 = Some p' /\
    Board.getPiece (Game.board (game p')) row' 3 = PIECE_B /\
    log p' = ["Col 6 Row 5 Turn 1"; move_line 6 row' PIECE_B] ++ rest.
Proof.
  set (b1 := Board.setPiece log_board 5 6 PIECE_A).
  assert (Hcm : computeMove main_ai b1 = Some (3, b1)).
  { rewrite computeMove_best_move, (best_move_immediate_win main_ai b1 3);
      [reflexivity|discriminate|unfold COLUMNS; lia|vm_compute; reflexivity
      |vm_compute; reflexivity|].
    intros c Hc _. do 3 (destruct c as [|c]; [vm_compute; discriminate|]). lia. }
  destruct (ai_reply_logged_with_human_column log_page 6 5 b1)
    as (move & row' & p' & rest & Hcm' & Hh & Hget & Hlog).
  - split; [apply render_live|by eexists].
  - split_and!; [split; vm_compute; [reflexivity|repeat constructor]
                |vm_compute; reflexivity| |discriminate|vm_compute; lia..].
    intros _. split_and!; [reflexivity|vm_compute; reflexivity..].
  - reflexivity.
  - vm_compute. reflexivity.
  - vm_compute. reflexivity.
  - rewrite Hcm in Hcm'. injection Hcm' as <-. exists row', p', rest.
    split_and!; [exact Hh|exact Hget|]. rewrite Hlog. reflexivity.
Defined.

Lemma reachable_events_defined_witness :
  (exists p', step loaded_page ResetClick p') /\ exists p', step loaded_page (ButtonClick 3) p'.
Proof.
  destruct (reachable_events_defined loaded_page loaded_page_reachable) as [Hr Hc].
  split; [exact Hr|]. apply Hc; [unfold COLUMNS; lia|right; vm_compute; reflexivity].
Defined.

Lemma reachable_console_witness :
  step loaded_page ResetClick reset_page /\ console reset_page = [].
Proof.
  assert (Hs : step loaded_page ResetClick reset_page)
    by (constructor; [reflexivity|vm_compute; reflexivity]).
  split; [exact Hs|]. rewrite (reachable_console _ _ _ loaded_page_reachable Hs).
  vm_compute. reflexivity.
Defined.

End Page.
