(* ===== verification/Controller.v ===== *)
(** * The controller as the phase machine of the design

    The design describes the click-driven control flow as a machine with
    the phases [AwaitingMove], [ComputingEngineMove] and [GameOver] and
    the events move-submitted, engine-move-computed and terminal-detected.
    Module [Controller] writes that machine as a labelled step relation
    [cstep] on a phase and a board: the human's drop and the engine's drop
    are legal drops of red and yellow on an unfinished board, a finished
    board leads to [GameOver], where no move is accepted, and the reset
    gives the empty board.  [run] chains steps along a trace of events.

    [moveButtonCallback] runs a whole round (the human's drop, the verdict,
    the AI's drop, the verdict) in one synchronous call, so the intermediate
    phase [ComputingEngineMove] is never visible between two events of the
    page.  The refinement theorem maps every step of [Game.step] from a
    reachable state onto a run of the phase machine whose trace is the
    round the click played. *)

From S2P Require Import Prelude Board Interface Heuristic Search SearchSpec Strategy Game.
Import Board (piece(..), win_state(..), ROWS, COLUMNS).

Module Controller.
Import Game.

Inductive phase := AwaitingMove | ComputingEngineMove | GameOver.

#[export] Instance phase_eq_dec : EqDecision phase.
Proof. solve_decision. Defined.

Inductive cevent :=
  | MoveSubmitted (col : nat)
  | EngineMoveComputed (col : nat)
  | TerminalDetected
  | GameReset.

Record cstate := CState { phase_of : phase; cboard : Board.board }.

(** The phase machine: the human (red) moves while [AwaitingMove], the
    engine (yellow) while [ComputingEngineMove]; a move needs an unfinished
    board and a column the drop accepts; a finished board is detected in
    either phase and ends the game; a reset starts over from any phase. *)
Inductive cstep : cstate -> cevent -> cstate -> Prop :=
  | cs_submit b col row b' :
      Board.checkWin b = WIN_STATE_NOT_FINISHED -> col < COLUMNS ->
      Board.addMove b col PIECE_A = Some (row, b') ->
      cstep (CState AwaitingMove b) (MoveSubmitted col) (CState ComputingEngineMove b')
  | cs_engine b col row b' :
      Board.checkWin b = WIN_STATE_NOT_FINISHED -> col < COLUMNS ->
      Board.addMove b col PIECE_B = Some (row, b') ->
      cstep (CState ComputingEngineMove b) (EngineMoveComputed col) (CState AwaitingMove b')
  | cs_terminal ph b :
      ph <> GameOver -> Board.checkWin b <> WIN_STATE_NOT_FINISHED ->
      cstep (CState ph b) TerminalDetected (CState GameOver b)
  | cs_reset s :
      cstep s GameReset (CState AwaitingMove Board.empty_board).

Inductive run : cstate -> list cevent -> cstate -> Prop :=
  | run_nil s : run s [] s
  | run_cons s e s1 es s2 : cstep s e s1 -> run s1 es s2 -> run s (e :: es) s2.

#[export] Hint Constructors cstep run : c4.
#[local] Hint Extern 1 (~ @eq phase _ _) => discriminate : c4.

(** The phase a state of the page shows between two events. *)
Definition abs (g : game) : cstate :=
  CState (if playing g then AwaitingMove else GameOver) (board g).

(** The rounds a click on column [col] may play while the game is on: the
    human's move ends the game, or the engine answers, and its move may
    end the game. *)
Definition click_trace (col : nat) (es : list cevent) : Prop :=
  es = [MoveSubmitted col; TerminalDetected] \/
  exists m, es = [MoveSubmitted col; EngineMoveComputed m] \/
            es = [MoveSubmitted col; EngineMoveComputed m; TerminalDetected].

(** The trace an event of the page plays: a reset, a round while the game
    is on, nothing once it is over. *)
Definition event_trace (pl : bool) (e : event) (es : list cevent) : Prop :=
  match e with
  | ResetClick => es = [GameReset]
  | Click col => if pl then click_trace col es else es = []
  end.

(** The round of [handleMove] on a game in progress, as a run. *)
Lemma handleMove_run g col g' :
  game_inv g -> playing g = true -> col < COLUMNS -> handleMove g col = Some g' ->
  exists es, click_trace col es /\ run (abs g) es (abs g').
Proof.
  destruct g as [b t pl]. intros (_ & _ & Hplay & _) Hpl Hc Hh; simpl in *. subst pl.
  destruct (Hplay eq_refl) as (-> & Hnf & _).
  unfold handleMove in Hh; cbn [board turn playing] in Hh.
  destruct (Board.addMove b col PIECE_A) as [[row b1]|] eqn:Hadd; [|discriminate].
  destruct (game_over (Board.checkWin b1)) eqn:Hover.
  { injection Hh as <-. apply game_over_true in Hover.
    exists [MoveSubmitted col; TerminalDetected]. split; [by left|].
    unfold abs; simpl. eauto with c4. }
  apply game_over_false in Hover.
  destruct (ai_reply b1 Hover) as (move & Hcm & Hm & _).
  rewrite Hcm, changeTurn_A in Hh.
  destruct (Board.addMove b1 move PIECE_B) as [[row2 b3]|] eqn:Hadd2; [|discriminate].
  destruct (game_over (Board.checkWin b3)) eqn:Hover2; injection Hh as <-.
  - apply game_over_true in Hover2.
    exists [MoveSubmitted col; EngineMoveComputed move; TerminalDetected].
    split; [right; eauto|]. unfold abs; simpl. eauto 10 with c4.
  - exists [MoveSubmitted col; EngineMoveComputed move].
    split; [right; eauto|]. unfold abs; simpl. eauto with c4.
Qed.

(** C32: Refinement onto the phase machine.  Every event the page handles
    from a reachable state is a run of the design's phase machine from the
    phase and board before it to the phase and board after it, along the
    trace the event plays: a reset starts over from the empty board, a
    click while the game is on plays the human's move and then either the
    verdict or the engine's move (with the verdict when it ends the game),
    and a click after the end plays nothing. *)
Theorem step_refines_phases g e g' :
  reachable g -> step g e g' ->
  exists es, event_trace (playing g) e es /\ run (abs g) es (abs g').
Proof.
  intros Hr Hstep. pose proof (reachable_game_inv g Hr) as Hinv.
  destruct Hstep as [g col g' Hc Hcb|g].
  - unfold moveButtonCallback in Hcb. simpl. destruct (playing g) eqn:Hpl.
    + exact (handleMove_run g col g' Hinv Hpl Hc Hcb).
    + injection Hcb as <-. eauto with c4.
  - exists [GameReset]. split; [done|]. destruct Hinv as [Hwf _].
    unfold abs, resetButtonCallback; simpl. rewrite Board.reset_is_empty by done.
    eauto with c4.
Qed.

End Controller.

Lemma step_refines_phases_witness :
  exists es, Controller.event_trace true Game.ResetClick es /\
    Controller.run (Controller.abs (Game.initial Board.empty_board)) es
      (Controller.abs (Game.resetButtonCallback (Game.initial Board.empty_board))).
Proof.
  apply (Controller.step_refines_phases (Game.initial Board.empty_board) Game.ResetClick).
  - apply Game.reachable_initial, Board.empty_board_wf.
  - apply Game.step_reset.
Defined.
